(** * OpenPanel analytical query builder and cohort aggregation

    A shallow embedding of the fluent ClickHouse query builder
    ([Query], [WhereGroupBuilder], [Expression]) and of the cohort
    retention code of the chart router ([cohort], [processCohortData]),
    followed by the properties the specification states about them. *)

From Stdlib Require Import ZArith QArith Qcanon Qround String Ascii List DecimalString Lia.
From stdpp Require Import base option list strings gmap sorting.

#[local] Set Warnings "-register-all".
#[local] Open Scope string_scope.
#[local] Open Scope Z_scope.

(** ** JavaScript built-ins the code relies on *)

Module JS.

(** [Array.prototype.join]. *)
Definition join (sep : string) (l : list string) : string := String.concat sep l.

(** [String.prototype.slice(from, to)] for [0 <= from <= to]. *)
Definition slice (from to : nat) (s : string) : string :=
  String.substring from (to - from) s.

(** [String.prototype.replace(pat, rep)] with one-character strings: only
    the first occurrence is replaced. *)
Fixpoint replace (pat rep : ascii) (s : string) : string :=
  match s with
  | EmptyString => EmptyString
  | String c rest =>
      if Ascii.eqb c pat then String rep rest else String c (replace pat rep rest)
  end.

(** [String(n)] for an integer-valued number printed without exponent. *)
Definition numberToString (n : Z) : string := NilZero.string_of_int (Z.to_int n).

(** [String.prototype.padStart(width, "0")]. *)
Definition padStart (width : nat) (s : string) : string :=
  String.concat "" (List.repeat "0" (width - String.length s)) +:+ s.

(** [new Error(message)] and [new RangeError(message)]. *)
Inductive Error :=
| mkError (message : string)
| mkRangeError (message : string).

(** A valid time value, given by its UTC calendar fields as
    [toISOString] prints them ([month] is 1..12). *)
Record TimeValue := mkTimeValue {
  year : Z; month : Z; day : Z;
  hours : Z; minutes : Z; seconds : Z; milliseconds : Z
}.

(** A [Date]: it holds a valid time value, or [NaN], which makes it an
    Invalid Date. *)
Inductive Date :=
| ValidDate (t : TimeValue)
| InvalidDate.

Definition pad (width : nat) (n : Z) : string := padStart width (numberToString n).

(** The year of [Date.prototype.toISOString]: four digits for years
    0..9999, otherwise a sign and six digits. *)
Definition isoYear (y : Z) : string :=
  if (0 <=? y) && (y <=? 9999) then pad 4 y
  else (if y <? 0 then "-" else "+") +:+ pad 6 (Z.abs y).

(** The ISO text of a time value: [YYYY-MM-DDTHH:mm:ss.sssZ]. *)
Definition isoText (t : TimeValue) : string :=
  isoYear (year t) +:+ "-" +:+ pad 2 (month t) +:+ "-" +:+ pad 2 (day t) +:+ "T"
  +:+ pad 2 (hours t) +:+ ":" +:+ pad 2 (minutes t) +:+ ":" +:+ pad 2 (seconds t)
  +:+ "." +:+ pad 3 (milliseconds t) +:+ "Z".

(** [Date.prototype.toISOString]: the ISO text of the time value; on an
    Invalid Date it throws [RangeError: Invalid time value]. *)
Definition toISOString (d : Date) : Error + string :=
  match d with
  | ValidDate t => inr (isoText t)
  | InvalidDate => inl (mkRangeError "Invalid time value")
  end.

(** Ramda's [range(from, to)]: the integers [from, from+1, ..., to-1]. *)
Definition range (from to : Z) : list Z := seqZ from (to - from).

End JS.

(** ** The [sqlstring] package *)

Module SqlString.

(** The values [Query.escapeValue] hands to [escape]: a string, a number,
    a boolean, or [undefined] for an omitted argument. *)
Inductive Value :=
| JUndefined
| JString (s : string)
| JNumber (n : Z)
| JBoolean (b : bool).

(** Modelled from the spec: [sqlstring] is an external package, "a standard
    SQL-literal quoting routine that escapes quotes and control characters".
    This is its table of escaped characters: NUL, backspace, tab, newline,
    carriage return, Ctrl-Z, the double quote, the single quote and the
    backslash, each replaced by a backslash and a letter or itself. *)
Definition CHARS_ESCAPE_MAP : list (ascii * string) :=
  [ ("000"%char, String "\" "0");
    ("008"%char, String "\" "b");
    ("009"%char, String "\" "t");
    ("010"%char, String "\" "n");
    ("013"%char, String "\" "r");
    ("026"%char, String "\" "Z");
    ("034"%char, String "\" (String "034" ""));
    ("'"%char, String "\" "'");
    ("\"%char, String "\" "\") ].

Fixpoint lookupChar (c : ascii) (table : list (ascii * string)) : option string :=
  match table with
  | [] => None
  | (k, v) :: table' => if Ascii.eqb c k then Some v else lookupChar c table'
  end.

Fixpoint escapeBody (val : string) : string :=
  match val with
  | EmptyString => EmptyString
  | String c rest =>
      match lookupChar c CHARS_ESCAPE_MAP with
      | Some e => e +:+ escapeBody rest
      | None => String c (escapeBody rest)
      end
  end.

(** Modelled from the spec: [sqlstring]'s [escapeString], the text between
    single quotes with every character of the table escaped. *)
Definition escapeString (val : string) : string :=
  "'" +:+ escapeBody val +:+ "'".

(** Modelled from the spec: [sqlstring]'s [escape] on the values it
    receives here: [undefined] is [NULL], a boolean is [true] or [false],
    a number is its decimal text, a string is quoted by [escapeString]. *)
Definition escape (val : Value) : string :=
  match val with
  | JUndefined => "NULL"
  | JBoolean b => if b then "true" else "false"
  | JNumber n => JS.numberToString n
  | JString s => escapeString s
  end.

End SqlString.

(** ** Reading SQL text back

    How a SQL lexer with backslash escapes reads a string literal: after the
    opening quote a backslash protects the next character and the first
    unprotected quote closes the literal. *)

Module Lexer.

(** [scanString body] is the text left after the closing quote, for the
    text [body] that follows an opening quote; [None] when the literal
    never closes. *)
Fixpoint scanString (body : string) : option string :=
  match body with
  | EmptyString => None
  | String c rest =>
      if Ascii.eqb c "\" then
        match rest with
        | EmptyString => None
        | String _ rest' => scanString rest'
        end
      else if Ascii.eqb c "'" then Some rest
      else scanString rest
  end.

(** [text] is exactly one string literal: it opens with a quote and the
    first closing quote is its last character. *)
Definition isStringLiteral (text : string) : bool :=
  match text with
  | String c body =>
      Ascii.eqb c "'" &&
      match scanString body with
      | Some EmptyString => true
      | _ => false
      end
  | EmptyString => false
  end.

(** [text] holds no single quote at all. *)
Fixpoint quoteFree (text : string) : bool :=
  match text with
  | EmptyString => true
  | String c rest => negb (Ascii.eqb c "'") && quoteFree rest
  end.

End Lexer.

(** ** The query builder: data *)

(** [class Expression]: raw SQL kept as it is. *)
Record Expression := mkExpression { sql : string }.

Definition toString (e : Expression) : string := sql e.

(** [string | Expression]. *)
Inductive StringOrExpression :=
| Str (s : string)
| Expr (e : Expression).

(** [x instanceof Expression ? x.toString() : x]. *)
Definition render (x : StringOrExpression) : string :=
  match x with
  | Expr e => toString e
  | Str s => s
  end.

(** A string or an [Expression] used as a condition: only the empty
    string is falsy. *)
Definition truthy (x : StringOrExpression) : bool :=
  match x with
  | Expr _ => true
  | Str s => negb (String.eqb s "")
  end.

(** [SqlValue] and [SqlParam]: a scalar or an array; the code escapes an
    array element with the function that escapes the array. A number is an
    integer, printed in plain decimal. *)
Inductive SqlParam :=
| PNull
| PString (s : string)
| PNumber (n : Z)
| PBoolean (b : bool)
| PDate (d : JS.Date)
| PArray (values : list SqlParam).

Inductive Operator :=
| OpEq | OpGt | OpLt | OpGe | OpLe | OpNe
| OpIn | OpNotIn | OpLike | OpNotLike
| OpIsNull | OpIsNotNull | OpBetween.

(** The operator as the string it is in the source. *)
Definition operatorText (op : Operator) : string :=
  match op with
  | OpEq => "=" | OpGt => ">" | OpLt => "<" | OpGe => ">=" | OpLe => "<="
  | OpNe => "!=" | OpIn => "IN" | OpNotIn => "NOT IN" | OpLike => "LIKE"
  | OpNotLike => "NOT LIKE" | OpIsNull => "IS NULL"
  | OpIsNotNull => "IS NOT NULL" | OpBetween => "BETWEEN"
  end.

Inductive Joiner := AND | OR.

Definition joinerText (j : Joiner) : string :=
  match j with AND => "AND" | OR => "OR" end.

Inductive JoinType := INNER | LEFT | RIGHT | FULL | CROSS.

Definition joinTypeText (t : JoinType) : string :=
  match t with
  | INNER => "INNER" | LEFT => "LEFT" | RIGHT => "RIGHT"
  | FULL => "FULL" | CROSS => "CROSS"
  end.

Inductive Direction := ASC | DESC.

Definition directionText (d : Direction) : string :=
  match d with ASC => "ASC" | DESC => "DESC" end.

(** [WhereCondition]; [isGroup] is absent (falsy) on plain conditions. *)
Record WhereCondition := mkWhere {
  condition : string;
  operator : Joiner;
  isGroup : bool
}.

Record HavingCondition := mkHaving {
  having_condition : string;
  having_operator : Joiner
}.

Record OrderBy := mkOrderBy {
  order_column : StringOrExpression;
  direction : Direction
}.

Record Join := mkJoin {
  join_type : JoinType;
  join_table : string;
  join_condition : StringOrExpression;
  join_final : bool
}.

(** [CTE]: a name and a nested builder or raw SQL. *)
Record CTE (Q : Type) := mkCTE {
  cte_name : string;
  cte_query : Q + string
}.
Arguments mkCTE {Q} _ _.
Arguments cte_name {Q} _.
Arguments cte_query {Q} _.

(** A result row of the OLAP client: column name and value text. *)
Definition Row := list (string * string).

(** [ClickHouseClient]: what [client.query] answers to a statement. *)
Record ClickHouseClient := mkClient {
  query : string -> JS.Error + list Row
}.

(** The private fields of [class Query]. [_settings] keeps the insertion
    order of the object's keys. *)
Inductive Query := mkQuery {
  _select : list StringOrExpression;
  _from : option string;
  _where : list WhereCondition;
  _groupBy : list string;
  _having : list HavingCondition;
  _orderBy : list OrderBy;
  _limit : option Z;
  _offset : option Z;
  _final : bool;
  _settings : list (string * string);
  _ctes : list (CTE Query);
  _joins : list Join;
  _skipNext : bool;
  client : ClickHouseClient
}.

(** [new Query(client)], also [createQuery(client)]. *)
Definition createQuery (c : ClickHouseClient) : Query :=
  mkQuery [] None [] [] [] [] None None false [] [] [] false c.

(** Field assignments [this._x = v]. *)
Definition set_select v '(mkQuery _ f w g h o l off fin st c j sk cl) :=
  mkQuery v f w g h o l off fin st c j sk cl.
Definition set_from v '(mkQuery s _ w g h o l off fin st c j sk cl) :=
  mkQuery s v w g h o l off fin st c j sk cl.
Definition set_where v '(mkQuery s f _ g h o l off fin st c j sk cl) :=
  mkQuery s f v g h o l off fin st c j sk cl.
Definition set_groupBy v '(mkQuery s f w _ h o l off fin st c j sk cl) :=
  mkQuery s f w v h o l off fin st c j sk cl.
Definition set_having v '(mkQuery s f w g _ o l off fin st c j sk cl) :=
  mkQuery s f w g v o l off fin st c j sk cl.
Definition set_orderBy v '(mkQuery s f w g h _ l off fin st c j sk cl) :=
  mkQuery s f w g h v l off fin st c j sk cl.
Definition set_limit v '(mkQuery s f w g h o _ off fin st c j sk cl) :=
  mkQuery s f w g h o v off fin st c j sk cl.
Definition set_offset v '(mkQuery s f w g h o l _ fin st c j sk cl) :=
  mkQuery s f w g h o l v fin st c j sk cl.
Definition set_final v '(mkQuery s f w g h o l off _ st c j sk cl) :=
  mkQuery s f w g h o l off v st c j sk cl.
Definition set_settings v '(mkQuery s f w g h o l off fin _ c j sk cl) :=
  mkQuery s f w g h o l off fin v c j sk cl.
Definition set_ctes v '(mkQuery s f w g h o l off fin st _ j sk cl) :=
  mkQuery s f w g h o l off fin st v j sk cl.
Definition set_joins v '(mkQuery s f w g h o l off fin st c _ sk cl) :=
  mkQuery s f w g h o l off fin st c v sk cl.
Definition set_skipNext v '(mkQuery s f w g h o l off fin st c j _ cl) :=
  mkQuery s f w g h o l off fin st c j v cl.

(** [this._x.push(v)]. *)
Definition push_where (c : WhereCondition) (q : Query) : Query :=
  set_where (_where q ++ [c]) q.
Definition push_having (c : HavingCondition) (q : Query) : Query :=
  set_having (_having q ++ [c]) q.
Definition push_orderBy (o : OrderBy) (q : Query) : Query :=
  set_orderBy (_orderBy q ++ [o]) q.
Definition push_cte (cte : CTE Query) (q : Query) : Query :=
  set_ctes (_ctes q ++ [cte]) q.
Definition push_join (j : Join) (q : Query) : Query :=
  set_joins (_joins q ++ [j]) q.

(** ** Completions and the method monad

    A method call either completes normally or throws, and in both cases
    leaves the builder and the network in some state. *)

Inductive Completion (A : Type) :=
| Normal (a : A)
| Throw (e : JS.Error).
Arguments Normal {A} _.
Arguments Throw {A} _.

(** The evaluation of an expression goes on with the next one unless it
    throws. *)
Definition andThen {A B} (c : Completion A) (k : A -> Completion B) : Completion B :=
  match c with
  | Normal a => k a
  | Throw e => Throw e
  end.

Section MapThrowing.

Context {A B : Type}.
Variable callback : A -> Completion B.

(** [Array.prototype.map] with a callback that may throw: the elements are
    mapped in order and the first throw ends the call. *)
Fixpoint mapThrowing (l : list A) : Completion (list B) :=
  match l with
  | [] => Normal []
  | x :: rest =>
      andThen (callback x) (fun y =>
      andThen (mapThrowing rest) (fun ys => Normal (y :: ys)))
  end.

End MapThrowing.

(** The builder a call chain works on and the statements sent to the OLAP
    client so far, latest last. *)
Record World := mkWorld {
  this : Query;
  network : list string
}.

Definition M (A : Type) : Type := World -> Completion A * World.

Definition ret {A} (a : A) : M A := fun w => (Normal a, w).

Definition bind {A B} (m : M A) (k : A -> M B) : M B :=
  fun w =>
    match m w with
    | (Normal a, w') => k a w'
    | (Throw e, w') => (Throw e, w')
    end.

Definition throw {A} (e : JS.Error) : M A := fun w => (Throw e, w).

Definition getThis : M Query := fun w => (Normal (this w), w).

Definition modifyThis (f : Query -> Query) : M unit :=
  fun w => (Normal tt, mkWorld (f (this w)) (network w)).

Definition send (statement : string) : M unit :=
  fun w => (Normal tt, mkWorld (this w) (network w ++ [statement])).

Definition lift {A} (c : Completion A) : M A := fun w => (c, w).

Notation "x <- c1 ;; c2" := (bind c1 (fun x => c2))
  (at level 100, c1 at next level, right associativity).
Notation "c1 ;; c2" := (bind c1 (fun _ => c2))
  (at level 100, right associativity).

(** ** The query builder: methods *)

(** [Query.escapeValue]. It throws what [toISOString] throws, for a date
    of its own or of an array element. *)
Fixpoint escapeValue (value : SqlParam) : Completion string :=
  match value with
  | PNull => Normal "NULL"
  | PArray values =>
      andThen (mapThrowing escapeValue values) (fun texts =>
      Normal ("(" +:+ JS.join ", " texts +:+ ")"))
  | PDate d =>
      match JS.toISOString d with
      | inr iso =>
          Normal (SqlString.escape
                    (SqlString.JString (JS.replace "T" " " (JS.slice 0 19 iso))))
      | inl e => Throw e
      end
  | PString s => Normal (SqlString.escape (SqlString.JString s))
  | PNumber n => Normal (SqlString.escape (SqlString.JNumber n))
  | PBoolean b => Normal (SqlString.escape (SqlString.JBoolean b))
  end.

(** [this.escapeValue(value!)] where [value] is the optional argument: when
    it was omitted none of the three tests of [escapeValue] holds and
    [undefined] reaches [escape]. *)
Definition escapeArgument (value : option SqlParam) : Completion string :=
  match value with
  | Some v => escapeValue v
  | None => Normal (SqlString.escape SqlString.JUndefined)
  end.

(** [Query.buildCondition]. The escapes of a template literal are
    evaluated from left to right, and a throw of one of them ends the
    call. *)
Definition buildCondition (column : StringOrExpression) (op : Operator)
    (value : option SqlParam) : Completion string :=
  let columnStr := render column in
  match op with
  | OpIsNull => Normal (columnStr +:+ " IS NULL")
  | OpIsNotNull => Normal (columnStr +:+ " IS NOT NULL")
  | OpBetween =>
      match value with
      | Some (PArray values) =>
          if Nat.eqb (List.length values) 2 then
            andThen (escapeValue (List.nth 0 values PNull)) (fun low =>
            andThen (escapeValue (List.nth 1 values PNull)) (fun high =>
            Normal (columnStr +:+ " BETWEEN " +:+ low +:+ " AND " +:+ high)))
          else Throw (JS.mkError "BETWEEN operator requires an array of two values")
      | _ => Throw (JS.mkError "BETWEEN operator requires an array of two values")
      end
  | OpIn | OpNotIn =>
      match value with
      | Some (PArray values) =>
          andThen (escapeValue (PArray values)) (fun escaped =>
          Normal (columnStr +:+ " " +:+ operatorText op +:+ " " +:+ escaped))
      | _ => Throw (JS.mkError (operatorText op +:+ " operator requires an array value"))
      end
  | _ =>
      andThen (escapeArgument value) (fun escaped =>
      Normal (columnStr +:+ " " +:+ operatorText op +:+ " " +:+ escaped))
  end.

Definition expr (s : string) : Expression := mkExpression s.

Definition select (columns : list StringOrExpression) : M unit :=
  q <- getThis;;
  if _skipNext q then ret tt else modifyThis (set_select columns).

(** [from(table, final = false)]; the default is applied by the caller. *)
Definition from (table : string) (final : bool) : M unit :=
  modifyThis (set_from (Some table));;
  modifyThis (set_final final).

Definition where_ (column : StringOrExpression) (op : Operator)
    (value : option SqlParam) : M unit :=
  q <- getThis;;
  if _skipNext q then ret tt else
  condition <- lift (buildCondition column op value);;
  modifyThis (push_where (mkWhere condition AND false)).

Definition andWhere (column : StringOrExpression) (op : Operator)
    (value : option SqlParam) : M unit :=
  condition <- lift (buildCondition column op value);;
  modifyThis (push_where (mkWhere condition AND false)).

Definition orWhere (column : StringOrExpression) (op : Operator)
    (value : option SqlParam) : M unit :=
  condition <- lift (buildCondition column op value);;
  modifyThis (push_where (mkWhere condition OR false)).

Definition groupBy (columns : list StringOrExpression) : M unit :=
  modifyThis (set_groupBy (List.map render columns)).

Definition having (column : StringOrExpression) (op : Operator) (value : SqlParam) : M unit :=
  condition <- lift (buildCondition column op (Some value));;
  modifyThis (push_having (mkHaving condition AND)).

Definition andHaving (column : StringOrExpression) (op : Operator) (value : SqlParam) : M unit :=
  condition <- lift (buildCondition column op (Some value));;
  modifyThis (push_having (mkHaving condition AND)).

Definition orHaving (column : StringOrExpression) (op : Operator) (value : SqlParam) : M unit :=
  condition <- lift (buildCondition column op (Some value));;
  modifyThis (push_having (mkHaving condition OR)).

(** [orderBy(column, direction = 'ASC')]. *)
Definition orderBy (column : StringOrExpression) (dir : Direction) : M unit :=
  q <- getThis;;
  if _skipNext q then ret tt else
  modifyThis (push_orderBy (mkOrderBy column dir)).

(** [limit(limit, offset?)]. *)
Definition limit (n : Z) (offset : option Z) : M unit :=
  modifyThis (set_limit (Some n));;
  match offset with
  | Some o => modifyThis (set_offset (Some o))
  | None => ret tt
  end.

(** One property written by [Object.assign]: an existing key keeps its
    place and takes the new value, a new key goes last. *)
Fixpoint assignKey (k v : string) (target : list (string * string)) : list (string * string) :=
  match target with
  | [] => [(k, v)]
  | (k', v') :: target' =>
      if String.eqb k' k then (k', v) :: target' else (k', v') :: assignKey k v target'
  end.

(** [Object.assign(target, source)]. *)
Definition assign (target source : list (string * string)) : list (string * string) :=
  List.fold_left (fun t kv => assignKey (fst kv) (snd kv) t) source target.

Definition settings (s : list (string * string)) : M unit :=
  modifyThis (fun q => set_settings (assign (_settings q) s) q).

Definition with_ (name : string) (body : Query + string) : M unit :=
  modifyThis (push_cte (mkCTE name body)).

Definition joinWithType (type : JoinType) (table : string)
    (cond : StringOrExpression) (final : bool) : M unit :=
  modifyThis (push_join (mkJoin type table cond final)).

Definition join (table : string) (cond : StringOrExpression) (final : bool) : M unit :=
  joinWithType INNER table cond final.
Definition leftJoin (table : string) (cond : StringOrExpression) (final : bool) : M unit :=
  joinWithType LEFT table cond final.
Definition rightJoin (table : string) (cond : StringOrExpression) (final : bool) : M unit :=
  joinWithType RIGHT table cond final.
Definition fullJoin (table : string) (cond : StringOrExpression) (final : bool) : M unit :=
  joinWithType FULL table cond final.
Definition crossJoin (table : string) (final : bool) : M unit :=
  joinWithType CROSS table (Str "") final.

(** [Query.buildWhereConditions]. *)
Definition buildWhereConditions (conditions : list WhereCondition) : string :=
  JS.join " "
    (imap (fun i w =>
             let c := if isGroup w then "(" +:+ condition w +:+ ")" else condition w in
             if Nat.eqb i 0 then c else joinerText (operator w) +:+ " " +:+ c)
          conditions).

(** The strings [Query.buildQuery] pushes on [parts], in order. *)
Fixpoint buildQuery_parts (q : Query) : list string :=
  (if Nat.ltb 0 (List.length (_ctes q)) then
     ["WITH " +:+ JS.join ", "
        (List.map (fun cte =>
           let queryStr :=
             match cte_query cte with
             | inr s => s
             | inl nested => JS.join " " (buildQuery_parts nested)
             end in
           cte_name cte +:+ " AS (" +:+ queryStr +:+ ")") (_ctes q))]
   else [])
  ++ (if Nat.ltb 0 (List.length (_select q)) then
        ["SELECT"; JS.join ", " (List.map render (_select q))]
      else ["SELECT *"])
  ++ (match _from q with
      | Some table =>
          if negb (String.eqb table "") then
            ("FROM " +:+ table +:+ (if _final q then " FINAL" else ""))
            :: List.map (fun j =>
                 let finalClause := if join_final j then " FINAL" else "" in
                 let conditionStr :=
                   if truthy (join_condition j)
                   then " ON " +:+ render (join_condition j) else "" in
                 joinTypeText (join_type j) +:+ " JOIN " +:+ join_table j
                 +:+ finalClause +:+ conditionStr) (_joins q)
          else []
      | None => []
      end)
  ++ (if Nat.ltb 0 (List.length (_where q)) then
        ["WHERE"; buildWhereConditions (_where q)]
      else [])
  ++ (if Nat.ltb 0 (List.length (_groupBy q)) then
        ["GROUP BY"; JS.join ", " (_groupBy q)]
      else [])
  ++ (if Nat.ltb 0 (List.length (_having q)) then
        ["HAVING";
         JS.join " "
           (imap (fun i h =>
                    if Nat.eqb i 0 then having_condition h
                    else joinerText (having_operator h) +:+ " " +:+ having_condition h)
                 (_having q))]
      else [])
  ++ (if Nat.ltb 0 (List.length (_orderBy q)) then
        ["ORDER BY";
         JS.join ", "
           (List.map (fun o => render (order_column o) +:+ " " +:+ directionText (direction o))
                     (_orderBy q))]
      else [])
  ++ (match _limit q with
      | Some l =>
          ("LIMIT " +:+ JS.numberToString l)
          :: match _offset q with
             | Some o => ["OFFSET " +:+ JS.numberToString o]
             | None => []
             end
      | None => []
      end)
  ++ (if Nat.ltb 0 (List.length (_settings q)) then
        ["SETTINGS " +:+ JS.join ", "
           (List.map (fun kv => fst kv +:+ " = " +:+ snd kv) (_settings q))]
      else []).

(** [Query.buildQuery]. *)
Definition buildQuery (q : Query) : string := JS.join " " (buildQuery_parts q).

(** [Query.execute]: one statement goes to the client. *)
Definition execute : M (list Row) :=
  q <- getThis;;
  let statement := buildQuery q in
  send statement;;
  match query (client q) statement with
  | inl e => throw e
  | inr rows => ret rows
  end.

Definition toSQL : M string :=
  q <- getThis;; ret (buildQuery q).

Definition _addWhereCondition (c : WhereCondition) : M unit :=
  modifyThis (push_where c).

Definition if_ (cond : bool) : M unit := modifyThis (set_skipNext (negb cond)).

Definition endIf : M unit := modifyThis (set_skipNext false).

(** [when(condition, callback)]: the callback works on this builder. *)
Definition when (cond : bool) (callback : M unit) : M unit :=
  if cond then callback else ret tt.

(** ** The where-group builder

    Its [query] field is the builder of the [World]; its own fields are
    passed from call to call. *)

Record WhereGroupBuilder := mkGroup {
  conditions : list WhereCondition;
  groupOperator : Joiner
}.

Definition whereGroup : M WhereGroupBuilder := ret (mkGroup [] AND).

Definition orWhereGroup : M WhereGroupBuilder := ret (mkGroup [] OR).

Module Group.

Definition push (c : WhereCondition) (g : WhereGroupBuilder) : WhereGroupBuilder :=
  mkGroup (conditions g ++ [c]) (groupOperator g).

Definition where_ (column : StringOrExpression) (op : Operator)
    (value : option SqlParam) (g : WhereGroupBuilder) : M WhereGroupBuilder :=
  condition <- lift (buildCondition column op value);;
  ret (push (mkWhere condition AND false) g).

Definition andWhere (column : StringOrExpression) (op : Operator)
    (value : option SqlParam) (g : WhereGroupBuilder) : M WhereGroupBuilder :=
  condition <- lift (buildCondition column op value);;
  ret (push (mkWhere condition AND false) g).

Definition orWhere (column : StringOrExpression) (op : Operator)
    (value : option SqlParam) (g : WhereGroupBuilder) : M WhereGroupBuilder :=
  condition <- lift (buildCondition column op value);;
  ret (push (mkWhere condition OR false) g).

(** The text [end()] computes from the group's conditions. *)
Definition groupCondition (g : WhereGroupBuilder) : string :=
  JS.join " "
    (imap (fun i c =>
             if Nat.eqb i 0 then condition c
             else joinerText (operator c) +:+ " " +:+ condition c)
          (conditions g)).

Definition end_ (g : WhereGroupBuilder) : M unit :=
  _addWhereCondition (mkWhere (groupCondition g) (groupOperator g) true).

End Group.

(** ** The cohort procedure of the chart router *)

Module Cohort.

#[local] Open Scope Qc_scope.

(** The values of [input.interval]. *)
Inductive TimeInterval := minute | hour | day | week | month.

Section Generator.

(** The start and end dates and the three differences of [date-fns],
    an external package. *)
Context {DateValue : Type}.
Variables differenceInDays differenceInWeeks differenceInMonths :
  DateValue -> DateValue -> Z.

Definition diffInterval (interval : TimeInterval) (startDate endDate : DateValue) : Z :=
  match interval with
  | minute => differenceInDays endDate startDate
  | hour => differenceInDays endDate startDate
  | day => differenceInDays endDate startDate
  | week => differenceInWeeks endDate startDate
  | month => differenceInMonths endDate startDate
  end.

End Generator.

Definition sqlInterval (interval : TimeInterval) : string :=
  match interval with
  | minute => "DAY" | hour => "DAY" | day => "DAY"
  | week => "WEEK" | month => "MONTH"
  end.

Definition sqlToStartOf (interval : TimeInterval) : string :=
  match interval with
  | minute => "toDate" | hour => "toDate" | day => "toDate"
  | week => "toStartOfWeek" | month => "toStartOfMonth"
  end.

(** [input.criteria === 'on_or_after' ? '>=' : '=']. *)
Definition countCriteria (criteria : string) : string :=
  if String.eqb criteria "on_or_after" then ">=" else "=".

(** The separator [',\n']. *)
Definition commaNewline : string := String "," (String "010" EmptyString).

Definition userList (criteria : string) (index : Z) : string :=
  "groupUniqArrayIf(profile_id, x_after_cohort " +:+ countCriteria criteria +:+ " "
  +:+ JS.numberToString index +:+ ") AS interval_" +:+ JS.numberToString index +:+ "_users".

Definition userCount (index : Z) : string :=
  "length(interval_" +:+ JS.numberToString index +:+ "_users) AS interval_"
  +:+ JS.numberToString index +:+ "_user_count".

(** The mapped array of [usersSelect], before it is joined. *)
Definition usersSelect_columns (criteria : string) (diffInterval : Z) : list string :=
  List.map (userList criteria) (JS.range 0 (diffInterval + 1)).

Definition usersSelect (criteria : string) (diffInterval : Z) : string :=
  JS.join commaNewline (usersSelect_columns criteria diffInterval).

(** The mapped array of [countsSelect], before it is joined. *)
Definition countsSelect_columns (diffInterval : Z) : list string :=
  List.map userCount (JS.range 0 (diffInterval + 1)).

Definition countsSelect (diffInterval : Z) : string :=
  JS.join commaNewline (countsSelect_columns diffInterval).

(** *** [processCohortData]

    Numbers are exact rationals. The sizes and counts of the query result
    are integers, on which the doubles of the code compute the same sums
    and products below 2^53. Quotients are exact here, where the doubles of
    the code round them: a percentage, which is a rounded quotient, can
    differ from the code's in its last digit. *)

Definition num (z : Z) : Qc := Q2Qc (inject_Z z).

(** Modelled from the spec: [round] of [@openpanel/common] is not among the
    sources; "rounding is half-up to the stated decimal precision
    throughout". *)
Definition round (value : Qc) (decimals : nat) : Qc :=
  let factor := num (10 ^ Z.of_nat decimals) in
  num (Qfloor (value * factor + Q2Qc (1 # 2))) / factor.

(** A row of the query result: the two named columns and the columns
    read by computed key. *)
Record CohortData := mkCohortData {
  cohort_interval : string;
  total_first_event_count : Qc;
  columns : gmap string Qc
}.

(** A row of the result. *)
Record CohortRow := mkCohortRow {
  row_cohort_interval : string;
  sum : Qc;
  values : list Qc;
  percentages : list Qc
}.

Definition userCountKey (index : Z) : string :=
  "interval_" +:+ JS.numberToString index +:+ "_user_count".

(** The callback of [data.map]. *)
Definition processRow (diffInterval : Z) (row : CohortData) : CohortRow :=
  let sum := total_first_event_count row in
  let values :=
    List.map (fun index => default 0 (columns row !! userCountKey index))
             (JS.range 0 (diffInterval + 1)) in
  {| row_cohort_interval := cohort_interval row;
     sum := sum;
     values := values;
     percentages :=
       List.map (fun value => if decide (0 < sum) then round (value / sum * num 100) 2 else 0)
                values |}.

(** An entry of [averageData.values] and [averageData.percentages]. *)
Record Weighted := mkWeighted {
  weight : Qc;
  weightedSum : Qc
}.

Record AverageData := mkAverageData {
  totalSum : Qc;
  average_values : list Weighted;
  average_percentages : list Weighted
}.

(** [entry.sum += rowSum; entry.weightedSum += value * rowSum]. *)
Definition addWeighted (rowSum value : Qc) (entry : Weighted) : Weighted :=
  mkWeighted (weight entry + rowSum) (weightedSum entry + value * rowSum).

(** [series.forEach((value, index) => { if (value !== 0) { ... } })]. *)
Definition accumulate (rowSum : Qc) (series : list Qc) (entries : list Weighted)
    : list Weighted :=
  foldl (fun entries iv =>
           if decide (snd iv = 0) then entries
           else alter (addWeighted rowSum (snd iv)) (fst iv) entries)
        entries (imap (fun index value => (index, value)) series).

(** The callback of [processed.forEach]. *)
Definition aggregate (averageData : AverageData) (row : CohortRow) : AverageData :=
  {| totalSum := totalSum averageData + sum row;
     average_values := accumulate (sum row) (values row) (average_values averageData);
     average_percentages :=
       accumulate (sum row) (percentages row) (average_percentages averageData) |}.

Definition emptyAverageData (diffInterval : Z) : AverageData :=
  {| totalSum := 0;
     average_values := List.map (fun _ => mkWeighted 0 0) (JS.range 0 (diffInterval + 1));
     average_percentages :=
       List.map (fun _ => mkWeighted 0 0) (JS.range 0 (diffInterval + 1)) |}.

Definition processCohortData (data : list CohortData) (diffInterval : Z) : list CohortRow :=
  if Nat.eqb (List.length data) 0 then []
  else
    let processed := List.map (processRow diffInterval) data in
    let averageData := foldl aggregate (emptyAverageData diffInterval) processed in
    let averageRow :=
      {| row_cohort_interval := "Weighted Average";
         sum := round (totalSum averageData / num (Z.of_nat (List.length processed))) 0;
         percentages :=
           List.map (fun e => if decide (0 < weight e)
                              then round (weightedSum e / weight e) 2 else 0)
                    (average_percentages averageData);
         values :=
           List.map (fun e => if decide (0 < weight e)
                              then round (weightedSum e / weight e) 0 else 0)
                    (average_values averageData) |} in
    averageRow :: processed.

(** *** The weighted average as the specification words it *)

(** The value of a cohort at an index, [0] where it has none. *)
Definition valueAt (index : nat) (row : CohortRow) : Qc :=
  default 0 (values row !! index).

(** The cohorts whose value at [index] is non-zero. *)
Definition contributing (index : nat) (rows : list CohortRow) : list CohortRow :=
  filter (fun row => valueAt index row <> 0) rows.

Fixpoint total (f : CohortRow -> Qc) (rows : list CohortRow) : Qc :=
  match rows with
  | [] => 0
  | row :: rows' => f row + total f rows'
  end.

(** The sum of the contributing cohorts' sizes. *)
Definition sumOfSizes (index : nat) (rows : list CohortRow) : Qc :=
  total sum (contributing index rows).

(** The sum of value times size over the contributing cohorts. *)
Definition sumOfWeighted (index : nat) (rows : list CohortRow) : Qc :=
  total (fun row => valueAt index row * sum row) (contributing index rows).

Definition weightedAverage (index : nat) (rows : list CohortRow) : Qc :=
  if decide (0 < sumOfSizes index rows)
  then round (sumOfWeighted index rows / sumOfSizes index rows) 0
  else 0.

End Cohort.

(** ** Vocabulary of the properties: timestamps *)

Section TimestampWords.

Import JS.

(** Every character of [s] satisfies [p]. *)
Fixpoint allb (p : ascii -> bool) (s : string) : bool :=
  match s with
  | EmptyString => true
  | String c rest => p c && allb p rest
  end.

(** The characters [0] to [9]. *)
Definition isDigit (c : ascii) : bool :=
  (48 <=? nat_of_ascii c)%nat && (nat_of_ascii c <=? 57)%nat.

(** The characters of a date and a time to the second. *)
Definition isDateChar (c : ascii) : bool :=
  isDigit c || Ascii.eqb c "-" || Ascii.eqb c ":" || Ascii.eqb c " ".

(** A field in range is printed with exactly [width] digits. *)
Definition padded (width : nat) (n : Z) : bool :=
  Nat.eqb (String.length (pad width n)) width && allb isDateChar (pad width n).

(** [p] holds of every integer from 0 to [bound - 1]. *)
Definition allBelow (p : Z -> bool) (bound : Z) : bool :=
  snd (Z.iter bound (fun st => (fst st + 1, snd st && p (fst st))) (0, true)).

(** A valid calendar date and time of day in a year of four digits. *)
Definition calendar (d : TimeValue) : Prop :=
  0 <= year d <= 9999 /\ 1 <= month d <= 12 /\ 1 <= day d <= 31 /\
  0 <= hours d <= 23 /\ 0 <= minutes d <= 59 /\ 0 <= seconds d <= 59.

(** The text of such a date to the second, date and time separated by
    [sep]. *)
Definition toSecond (sep : string) (d : TimeValue) : string :=
  (pad 4 (year d) +:+ "-" +:+ pad 2 (month d) +:+ "-" +:+ pad 2 (day d))
  +:+ sep +:+ (pad 2 (hours d) +:+ ":" +:+ pad 2 (minutes d) +:+ ":" +:+ pad 2 (seconds d)).

(** A valid calendar date and time of day in a year that [toISOString]
    prints with a sign and six digits: a year before 0 or after 9999, within
    the years a [Date] can hold. *)
Definition extended (d : TimeValue) : Prop :=
  (year d < 0 \/ 9999 < year d) /\ -271821 <= year d <= 275760 /\
  1 <= month d <= 12 /\ 1 <= day d <= 31 /\
  0 <= hours d <= 23 /\ 0 <= minutes d <= 59 /\ 0 <= seconds d <= 59.

(** The text of such a date to the minute, the year with its sign and six
    digits: nineteen characters. *)
Definition toMinute (sep : string) (d : TimeValue) : string :=
  ((if year d <? 0 then "-" else "+") +:+ pad 6 (Z.abs (year d)) +:+ "-"
   +:+ pad 2 (month d) +:+ "-" +:+ pad 2 (day d))
  +:+ sep +:+ (pad 2 (hours d) +:+ ":" +:+ pad 2 (minutes d)).

End TimestampWords.

(** ** Vocabulary of the properties: invalid dates *)

(** The error [toISOString] throws on an Invalid Date. *)
Definition rangeError : JS.Error := JS.mkRangeError "Invalid time value".

(** The value is an Invalid Date or an array that holds one, at any
    depth. *)
Fixpoint invalid (v : SqlParam) : bool :=
  match v with
  | PDate JS.InvalidDate => true
  | PArray values => existsb invalid values
  | _ => false
  end.

(** ** Vocabulary of the properties: operator usage *)

(** The two errors [buildCondition] throws. *)
Definition betweenError : JS.Error :=
  JS.mkError "BETWEEN operator requires an array of two values".

Definition arrayError (op : Operator) : JS.Error :=
  JS.mkError (operatorText op +:+ " operator requires an array value").

(** The errors the specification calls InvalidOperatorUsage. *)
Inductive InvalidOperatorUsage : JS.Error -> Prop :=
| BetweenUsage : InvalidOperatorUsage betweenError
| InUsage : InvalidOperatorUsage (arrayError OpIn)
| NotInUsage : InvalidOperatorUsage (arrayError OpNotIn).

(** [Array.isArray(value)]. *)
Definition isArray (value : option SqlParam) : bool :=
  match value with
  | Some (PArray _) => true
  | _ => false
  end.

(** [value.length] of an array. *)
Definition arrayLength (value : option SqlParam) : option nat :=
  match value with
  | Some (PArray values) => Some (List.length values)
  | _ => None
  end.

(** An operator with a value of the wrong shape: [BETWEEN] without an
    array of exactly two elements, [IN] or [NOT IN] without an array. *)
Inductive Misused : Operator -> option SqlParam -> Prop :=
| MisusedBetween value : arrayLength value <> Some 2%nat -> Misused OpBetween value
| MisusedIn value : isArray value = false -> Misused OpIn value
| MisusedNotIn value : isArray value = false -> Misused OpNotIn value.

(** Two builders that differ in the skip flag at most. *)
Definition sameButSkip (q q' : Query) : Prop :=
  _select q' = _select q /\ _from q' = _from q /\ _where q' = _where q
  /\ _groupBy q' = _groupBy q /\ _having q' = _having q /\ _orderBy q' = _orderBy q
  /\ _limit q' = _limit q /\ _offset q' = _offset q /\ _final q' = _final q
  /\ _settings q' = _settings q /\ _ctes q' = _ctes q /\ _joins q' = _joins q
  /\ client q' = client q.

(** A client that answers every statement with no rows. *)
Definition idleClient : ClickHouseClient := mkClient (fun _ => inr []).

(** The builder right after [if(false)]. *)
Definition skippingWorld : World :=
  mkWorld (set_skipNext true (createQuery idleClient)) [].

(** ** Vocabulary of the properties: rendering *)

(** A condition as it is rendered: a group goes between parentheses. *)
Definition conditionText (w : WhereCondition) : string :=
  if isGroup w then "(" +:+ condition w +:+ ")" else condition w.

(** A condition behind its own joiner. *)
Definition joined (w : WhereCondition) : string :=
  " " +:+ joinerText (operator w) +:+ " " +:+ conditionText w.

(** ** Vocabulary of the properties: aggregation *)

Section AggregationWords.

Import Cohort.
#[local] Open Scope Qc_scope.

(** What one cohort adds to the entry of an index: nothing when it has
    no value there or the value is zero. *)
Definition contribution (rowSum : Qc) (value : option Qc) : Weighted -> Weighted :=
  match value with
  | Some v => if decide (v = 0) then id else addWeighted rowSum v
  | None => id
  end.

(** The callback of [series.forEach] in [accumulate]. *)
Definition forEachStep (rowSum : Qc) (entries : list Weighted) (iv : nat * Qc) : list Weighted :=
  if decide (snd iv = 0) then entries
  else alter (addWeighted rowSum (snd iv)) (fst iv) entries.

(** The two cohorts of the specification's example, as rows of the query
    result, with one interval between start and end. *)
Definition exampleData : list CohortData :=
  [ mkCohortData "2024-01-01" (num 10)
      (<["interval_0_user_count" := num 5]> (<["interval_1_user_count" := num 0]> ∅));
    mkCohortData "2024-01-02" (num 20)
      (<["interval_0_user_count" := num 0]> (<["interval_1_user_count" := num 10]> ∅)) ].

End AggregationWords.

(** ** Further vocabulary: the literals of a SQL text *)

(** A lexer over a whole SQL text. Outside a literal a quote opens one;
    inside, a backslash protects the next character and a quote closes the
    literal. The result is the number of literals read, and [None] when the
    text ends inside a literal. *)
Fixpoint scanText (inside : bool) (n : nat) (text : string) : option nat :=
  match text with
  | EmptyString => if inside then None else Some n
  | String c rest =>
      if inside then
        if Ascii.eqb c "\" then
          match rest with
          | EmptyString => None
          | String _ rest' => scanText true n rest'
          end
        else if Ascii.eqb c "'" then scanText false (S n) rest
        else scanText true n rest
      else if Ascii.eqb c "'" then scanText true n rest
      else scanText false n rest
  end.

Definition literals (text : string) : option nat := scanText false 0 text.

(** The strings and dates of a value, the elements of arrays included. *)
Fixpoint leaves (v : SqlParam) : nat :=
  match v with
  | PString _ | PDate _ => 1
  | PArray values => list_sum (List.map leaves values)
  | _ => 0
  end.

(** The strings and dates of an optional argument. *)
Definition argumentLeaves (value : option SqlParam) : nat :=
  match value with
  | Some v => leaves v
  | None => 0
  end.

(** ** The chart router: helpers of the procedures *)

Module Chart.

Section Utc.

(** [formatISO] of [date-fns], an external package; it may throw, as it
    does on an Invalid Date. *)
Variable formatISO : JS.Date -> Completion string.

(** [utc(date)]. *)
Definition utc (date : string + JS.Date) : Completion string :=
  match date with
  | inl s => Normal (JS.slice 0 19 (JS.replace "T" " " s))
  | inr d =>
      andThen (formatISO d) (fun iso =>
      Normal (JS.slice 0 19 (JS.replace "T" " " iso)))
  end.

End Utc.

(** [whereEventNameIs(event)] of the cohort procedure. The only array of
    length one is [[e]], and [event[0]] is then [e]. *)
Definition whereEventNameIs (event : list string) : string :=
  match event with
  | [e] => "name = " +:+ SqlString.escape (SqlString.JString e)
  | _ =>
      "name IN ("
      +:+ JS.join "," (List.map (fun e => SqlString.escape (SqlString.JString e)) event)
      +:+ ")"
  end.

End Chart.

(** The literals a condition holds: those of its value, none for the two
    null tests. *)
Definition conditionLeaves (op : Operator) (value : option SqlParam) : nat :=
  match op with
  | OpIsNull | OpIsNotNull => 0
  | _ => argumentLeaves value
  end.

(** The value the operator escapes holds an Invalid Date; the two null
    tests escape nothing. *)
Definition escapesInvalid (op : Operator) (value : option SqlParam) : bool :=
  match op with
  | OpIsNull | OpIsNotNull => false
  | _ =>
      match value with
      | Some v => invalid v
      | None => false
      end
  end.

(** The operators that compare the column with one escaped value. *)
Definition comparison (op : Operator) : bool :=
  match op with
  | OpEq | OpGt | OpLt | OpGe | OpLe | OpNe | OpLike | OpNotLike => true
  | _ => false
  end.

(** ** Further vocabulary: objects, call sequences and clauses *)

(** [o[k]] on an object kept as a list of entries. *)
Fixpoint getKey (k : string) (o : list (string * string)) : option string :=
  match o with
  | [] => None
  | (k', v) :: o' => if String.eqb k' k then Some v else getKey k o'
  end.

(** One call of a public method of [Query], or the [end()] of a where
    group of this builder. A callback given to [when] makes such calls
    itself. *)
Inductive Call :=
| CallSelect (columns : list StringOrExpression)
| CallFrom (table : string) (final : bool)
| CallWhere (column : StringOrExpression) (op : Operator) (value : option SqlParam)
| CallAndWhere (column : StringOrExpression) (op : Operator) (value : option SqlParam)
| CallOrWhere (column : StringOrExpression) (op : Operator) (value : option SqlParam)
| CallGroupBy (columns : list StringOrExpression)
| CallHaving (column : StringOrExpression) (op : Operator) (value : SqlParam)
| CallAndHaving (column : StringOrExpression) (op : Operator) (value : SqlParam)
| CallOrHaving (column : StringOrExpression) (op : Operator) (value : SqlParam)
| CallOrderBy (column : StringOrExpression) (dir : Direction)
| CallLimit (n : Z) (offset : option Z)
| CallSettings (s : list (string * string))
| CallWith (name : string) (body : Query + string)
| CallJoin (table : string) (cond : StringOrExpression) (final : bool)
| CallLeftJoin (table : string) (cond : StringOrExpression) (final : bool)
| CallRightJoin (table : string) (cond : StringOrExpression) (final : bool)
| CallFullJoin (table : string) (cond : StringOrExpression) (final : bool)
| CallCrossJoin (table : string) (final : bool)
| CallAddWhereCondition (c : WhereCondition)
| CallGroupEnd (g : WhereGroupBuilder)
| CallIf (cond : bool)
| CallEndIf
| CallToSQL
| CallExecute.

Definition perform (c : Call) : M unit :=
  match c with
  | CallSelect columns => select columns
  | CallFrom table final => from table final
  | CallWhere column op value => where_ column op value
  | CallAndWhere column op value => andWhere column op value
  | CallOrWhere column op value => orWhere column op value
  | CallGroupBy columns => groupBy columns
  | CallHaving column op value => having column op value
  | CallAndHaving column op value => andHaving column op value
  | CallOrHaving column op value => orHaving column op value
  | CallOrderBy column dir => orderBy column dir
  | CallLimit n offset => limit n offset
  | CallSettings s => settings s
  | CallWith name body => with_ name body
  | CallJoin table cond final => join table cond final
  | CallLeftJoin table cond final => leftJoin table cond final
  | CallRightJoin table cond final => rightJoin table cond final
  | CallFullJoin table cond final => fullJoin table cond final
  | CallCrossJoin table final => crossJoin table final
  | CallAddWhereCondition c => _addWhereCondition c
  | CallGroupEnd g => Group.end_ g
  | CallIf cond => if_ cond
  | CallEndIf => endIf
  | CallToSQL => toSQL;; ret tt
  | CallExecute => execute;; ret tt
  end.

(** The calls the specification lets the skip flag suppress. *)
Definition skipped (c : Call) : bool :=
  match c with
  | CallSelect _ | CallWhere _ _ _ | CallOrderBy _ _ => true
  | _ => false
  end.

(** The world after a sequence of calls, in order. A call that throws
    leaves the world it found, and the caller may go on with the builder. *)
Definition runCalls (calls : list Call) (w : World) : World :=
  List.fold_left (fun w c => snd (perform c w)) calls w.

(** A new builder and an idle network. *)
Definition fresh (c : ClickHouseClient) : World := mkWorld (createQuery c) [].

(** The text of one join, as [buildQuery] pushes it. *)
Definition joinText (j : Join) : string :=
  joinTypeText (join_type j) +:+ " JOIN " +:+ join_table j
  +:+ (if join_final j then " FINAL" else "")
  +:+ (if truthy (join_condition j) then " ON " +:+ render (join_condition j) else "").

(** What holds of the fields of every builder, however it was used. *)
Definition wellFormed (q : Query) : Prop :=
  NoDup (List.map fst (_settings q))
  /\ (_limit q = None -> _offset q = None)
  /\ (_from q = None -> _final q = false)
  /\ Forall (fun j => join_type j = CROSS -> join_condition j = Str "") (_joins q).

(** A HAVING condition behind its own joiner. *)
Definition havingJoined (h : HavingCondition) : string :=
  " " +:+ joinerText (having_operator h) +:+ " " +:+ having_condition h.

(** [after] is [before] with more at its end. *)
Definition grown {A} (before after : list A) : Prop :=
  exists added, after = (before ++ added)%list.

(** The sequences of [q'] are those of [q] with more at their ends. *)
Definition onlyGrown (q q' : Query) : Prop :=
  grown (_where q) (_where q')
  /\ grown (_having q) (_having q')
  /\ grown (_orderBy q) (_orderBy q')
  /\ grown (_joins q) (_joins q')
  /\ grown (_ctes q) (_ctes q').

(** ** The function library [fn] *)

Module Fn.

(** [wrap(expr)]. *)
Definition wrap (expr : StringOrExpression) : string :=
  match expr with
  | Expr e => toString e
  | Str s => s
  end.

Definition toDate (expr : StringOrExpression) : Expression :=
  mkExpression ("toDate(" +:+ wrap expr +:+ ")").

Definition toDateTime (expr : StringOrExpression) : Expression :=
  mkExpression ("toDateTime(" +:+ wrap expr +:+ ")").

Definition now : Expression := mkExpression "now()".

Definition today : Expression := mkExpression "today()".

Definition yesterday : Expression := mkExpression "yesterday()".

Definition toStartOfHour (expr : StringOrExpression) : Expression :=
  mkExpression ("toStartOfHour(" +:+ wrap expr +:+ ")").

Definition toStartOfDay (expr : StringOrExpression) : Expression :=
  mkExpression ("toStartOfDay(" +:+ wrap expr +:+ ")").

Definition toStartOfMonth (expr : StringOrExpression) : Expression :=
  mkExpression ("toStartOfMonth(" +:+ wrap expr +:+ ")").

Definition toStartOfYear (expr : StringOrExpression) : Expression :=
  mkExpression ("toStartOfYear(" +:+ wrap expr +:+ ")").

(** The units of [dateDiff]. *)
Inductive Unit := second | minute | hour | day | week | month | year.

Definition unitText (unit : Unit) : string :=
  match unit with
  | second => "second" | minute => "minute" | hour => "hour" | day => "day"
  | week => "week" | month => "month" | year => "year"
  end.

Definition dateDiff (unit : Unit) (start end_ : StringOrExpression) : Expression :=
  mkExpression ("dateDiff('" +:+ unitText unit +:+ "', " +:+ wrap start +:+ ", "
                +:+ wrap end_ +:+ ")").

(** [count(expr = '*')]: the default stands in for an omitted argument. *)
Definition count (expr : option StringOrExpression) : Expression :=
  mkExpression ("count(" +:+ wrap (default (Str "*") expr) +:+ ")").

Definition countDistinct (expr : StringOrExpression) : Expression :=
  mkExpression ("count(DISTINCT " +:+ wrap expr +:+ ")").

Definition min (expr : StringOrExpression) : Expression :=
  mkExpression ("min(" +:+ wrap expr +:+ ")").

(** [max(expr, as?)]: the alias counts when it is a non-empty string. *)
Definition max (expr : StringOrExpression) (as_ : option string) : Expression :=
  mkExpression
    ("max(" +:+ wrap expr +:+ ")"
     +:+ match as_ with
         | Some a => if String.eqb a "" then "" else " as " +:+ a
         | None => ""
         end).

Definition sum (expr : StringOrExpression) : Expression :=
  mkExpression ("sum(" +:+ wrap expr +:+ ")").

Definition avg (expr : StringOrExpression) : Expression :=
  mkExpression ("avg(" +:+ wrap expr +:+ ")").

Definition distinct (expr : StringOrExpression) : Expression :=
  mkExpression ("distinct(" +:+ wrap expr +:+ ")").

Definition concat (args : list StringOrExpression) : Expression :=
  mkExpression ("concat(" +:+ JS.join ", " (List.map wrap args) +:+ ")").

(** [substring(expr, start, length?)]: the length counts when it is a
    number other than zero. *)
Definition substring (expr : StringOrExpression) (start : Z) (length : option Z)
    : Expression :=
  let params :=
    match length with
    | Some len =>
        if Z.eqb len 0 then wrap expr +:+ ", " +:+ JS.numberToString start
        else wrap expr +:+ ", " +:+ JS.numberToString start +:+ ", "
             +:+ JS.numberToString len
    | None => wrap expr +:+ ", " +:+ JS.numberToString start
    end in
  mkExpression ("substring(" +:+ params +:+ ")").

Definition arrayJoin (expr : StringOrExpression) : Expression :=
  mkExpression ("arrayJoin(" +:+ wrap expr +:+ ")").

Definition arrayLength (expr : StringOrExpression) : Expression :=
  mkExpression ("length(" +:+ wrap expr +:+ ")").

Definition ifThen (condition then_ else_ : StringOrExpression) : Expression :=
  mkExpression ("if(" +:+ wrap condition +:+ ", " +:+ wrap then_ +:+ ", "
                +:+ wrap else_ +:+ ")").

(** The functions of one argument. *)
Definition unary : list (StringOrExpression -> Expression) :=
  [toDate; toDateTime; toStartOfHour; toStartOfDay; toStartOfMonth; toStartOfYear;
   countDistinct; min; sum; avg; distinct; arrayJoin; arrayLength].

End Fn.

(** ** Further vocabulary: parentheses *)

(** The depth of open parentheses after [text], starting from [depth];
    [None] when a parenthesis closes that was never opened. *)
Fixpoint parenDepth (depth : nat) (text : string) : option nat :=
  match text with
  | EmptyString => Some depth
  | String c rest =>
      if Ascii.eqb c "(" then parenDepth (S depth) rest
      else if Ascii.eqb c ")" then
        match depth with
        | O => None
        | S d => parenDepth d rest
        end
      else parenDepth depth rest
  end.

(** Every parenthesis of [text] has its partner. *)
Definition balanced (text : string) : Prop := parenDepth 0 text = Some 0%nat.

(** [text] holds no parenthesis. *)
Definition parenFree (text : string) : bool :=
  allb (fun c => negb (Ascii.eqb c "(") && negb (Ascii.eqb c ")")) text.

(** ** Ramda *)

Module Ramda.

Section Sort.

Context {A : Type}.
Variable comparator : A -> A -> Z.

(** [x] goes in front of the first element it does not come after. *)
Fixpoint insert (x : A) (sorted : list A) : list A :=
  match sorted with
  | [] => [x]
  | y :: rest => if 0 <? comparator x y then y :: insert x rest else x :: y :: rest
  end.

(** [sort(comparator, list)]: a sorted copy. [Array.prototype.sort] is
    stable, and the stable sort of a list is the one list this insertion
    sort computes. *)
Definition sort (l : list A) : list A := List.fold_right insert [] l.

End Sort.

Fixpoint uniqFrom (seen l : list string) : list string :=
  match l with
  | [] => []
  | x :: rest =>
      if decide (x ∈ seen) then uniqFrom seen rest else x :: uniqFrom (x :: seen) rest
  end.

(** [uniq(list)]: the first occurrence of every element, in order. *)
Definition uniq (l : list string) : list string := uniqFrom [] l.

(** [flatten] on an array of arrays of strings. *)
Definition flatten (l : list (list string)) : list string := List.concat l.

End Ramda.

(** ** The chart router: the property and value procedures *)

Module Procedures.

(** [TABLE_NAMES] of [@openpanel/db]: the table names the procedures use. *)
Record TableNames := mkTableNames {
  event_names_mv : string;
  event_property_values_mv : string
}.

(** [(a, b) => a.length - b.length]. A string is a sequence of one-byte
    characters here, and its length is their number. *)
Definition byLength (a b : string) : Z :=
  Z.of_nat (String.length a) - Z.of_nat (String.length b).

(** The names [properties] always offers. *)
Definition builtinProperties : list string :=
  [ "has_profile"; "path"; "origin"; "referrer"; "referrer_name"; "duration";
    "created_at"; "country"; "city"; "region"; "os"; "os_version"; "browser";
    "browser_version"; "device"; "brand"; "model" ].

(** The end of [properties]: [items] are the property keys after the two
    regular-expression replacements. *)
Definition propertyNames (event : option string) (items : list string) : list string :=
  let properties := List.map (fun item => "properties." +:+ item) items in
  let properties :=
    (properties ++ (if decide (event = Some "*") then ["name"] else []))%list in
  let properties := (properties ++ builtinProperties)%list in
  Ramda.uniq (Ramda.sort byLength properties).

(** The end of the other branch of [values]: [events] holds the [values]
    column of every row. *)
Definition propertyValues (events : list (list string)) : list string :=
  Ramda.sort byLength (Ramda.uniq (Ramda.flatten events)).

(** [!!event && event !== '*']. *)
Definition namesEvent (event : option string) : bool :=
  match event with
  | Some e => negb (String.eqb e "") && negb (String.eqb e "*")
  | None => false
  end.

Section Queries.

Variable TABLE_NAMES : TableNames.

(** The query of [events]. *)
Definition eventsQuery (projectId : string) : M (list Row) :=
  select [Expr (Fn.distinct (Str "name"))];;
  from (event_names_mv TABLE_NAMES) false;;
  where_ (Str "project_id") OpEq (Some (PString projectId));;
  execute.

(** The query of [properties]. *)
Definition propertiesQuery (projectId : string) (event : option string) : M (list Row) :=
  select [Expr (Fn.distinct (Str "property_key"));
          Expr (Fn.max (Str "created_at") (Some "created_at"))];;
  from (event_property_values_mv TABLE_NAMES) false;;
  where_ (Str "project_id") OpEq (Some (PString projectId));;
  when (namesEvent event)
    (andWhere (Str "name") OpEq (option_map PString event));;
  groupBy [Str "property_key"];;
  orderBy (Str "created_at") DESC;;
  execute.

(** The query of [values] for a property that starts with [properties.]. *)
Definition valuesQuery (projectId propertyKey event : string) : M (list Row) :=
  select [Str "distinct property_value"; Str "max(created_at) as created_at"];;
  from (event_property_values_mv TABLE_NAMES) false;;
  where_ (Str "project_id") OpEq (Some (PString projectId));;
  andWhere (Str "property_key") OpEq (Some (PString propertyKey));;
  when (namesEvent (Some event))
    (andWhere (Str "name") OpEq (Some (PString event)));;
  groupBy [Str "property_value"];;
  orderBy (Str "created_at") DESC;;
  execute.

End Queries.

(** The name filter the specification of the procedures asks for: none
    without an event and for the events [""] and ["*"], and the escaped
    name of any other event. *)
Definition nameFilter (event : option string) : string :=
  match event with
  | None => ""
  | Some e =>
      if decide (e = "" \/ e = "*") then ""
      else " AND name = " +:+ SqlString.escapeString e
  end.

End Procedures.

(** ** Further vocabulary: order *)

(** No element is longer than one behind it. *)
Definition sortedByLength (l : list string) : Prop :=
  StronglySorted (fun a b => (String.length a <= String.length b)%nat) l.

(** ** Further vocabulary: the statements a call sequence sends *)

Definition isExecute (c : Call) : bool :=
  match c with
  | CallExecute => true
  | _ => false
  end.

(** How many calls of a sequence are [execute]. *)
Definition executions (calls : list Call) : nat :=
  List.length (List.filter isExecute calls).

(** * Properties *)

(** ** Strings and joins *)

#[local] Arguments String.append !_ _ / : simpl nomatch.
#[local] Open Scope list_scope.

Lemma append_assoc (a b c : string) : (a +:+ b) +:+ c = a +:+ (b +:+ c).
Proof. induction a as [|x a IH]; simpl; [reflexivity | f_equal; exact IH]. Qed.

Lemma append_empty_r (a : string) : a +:+ "" = a.
Proof. induction a as [|x a IH]; simpl; [reflexivity | f_equal; exact IH]. Qed.

Lemma concat_empty_cons (x : string) (l : list string) :
  String.concat "" (x :: l) = x +:+ String.concat "" l.
Proof.
  destruct l as [|y l]; simpl; [now rewrite append_empty_r | reflexivity].
Qed.

Lemma concat_empty_app (l1 l2 : list string) :
  String.concat "" (l1 ++ l2)%list = String.concat "" l1 +:+ String.concat "" l2.
Proof.
  induction l1 as [|x l1 IH]; [reflexivity|].
  change ((x :: l1) ++ l2)%list with (x :: (l1 ++ l2))%list.
  rewrite !concat_empty_cons, IH. now rewrite append_assoc.
Qed.

(** A join is its first element followed by every other element behind
    the separator. *)
Lemma join_cons (sep x : string) (l : list string) :
  JS.join sep (x :: l) = x +:+ String.concat "" (List.map (fun y => sep +:+ y) l).
Proof.
  unfold JS.join. revert x.
  induction l as [|y l IH]; intros x.
  - simpl. now rewrite append_empty_r.
  - change (String.concat sep (x :: y :: l))
      with (x +:+ sep +:+ String.concat sep (y :: l)).
    rewrite IH. simpl List.map. rewrite concat_empty_cons.
    now rewrite append_assoc.
Qed.

(** ** Quoting *)

Section Quoting.

Import SqlString Lexer.

Lemma lookupChar_escape c e :
  lookupChar c CHARS_ESCAPE_MAP = Some e ->
  exists x, e = String "\" (String x EmptyString).
Proof.
  unfold CHARS_ESCAPE_MAP; simpl.
  repeat (destruct (Ascii.eqb c _); [intros [= <-]; eauto |]).
  discriminate.
Qed.

Lemma lookupChar_plain c :
  lookupChar c CHARS_ESCAPE_MAP = None ->
  Ascii.eqb c "\" = false /\ Ascii.eqb c "'" = false.
Proof.
  unfold CHARS_ESCAPE_MAP; simpl.
  repeat (destruct (Ascii.eqb c _); [discriminate |]).
  auto.
Qed.

(** Reading an escaped body stops at the quote that follows it. *)
Lemma scanString_escapeBody (s rest : string) :
  scanString (escapeBody s +:+ String "'" rest) = Some rest.
Proof.
  induction s as [|c s IH]; [reflexivity|].
  change (escapeBody (String c s))
    with (match lookupChar c CHARS_ESCAPE_MAP with
          | Some e => e +:+ escapeBody s
          | None => String c (escapeBody s)
          end).
  destruct (lookupChar c CHARS_ESCAPE_MAP) as [e|] eqn:E.
  - destruct (lookupChar_escape _ _ E) as [x ->]. simpl. exact IH.
  - destruct (lookupChar_plain _ E) as [Hb Hq]. simpl. now rewrite Hb, Hq.
Qed.

Lemma escapeString_literal (s : string) :
  isStringLiteral (escapeString s) = true.
Proof.
  unfold escapeString. simpl. now rewrite scanString_escapeBody.
Qed.

Lemma quoteFree_uint (d : Decimal.uint) :
  quoteFree (NilEmpty.string_of_uint d) = true.
Proof. induction d; simpl; auto. Qed.

Lemma quoteFree_numberToString (n : Z) :
  quoteFree (JS.numberToString n) = true.
Proof.
  unfold JS.numberToString, NilZero.string_of_int, NilZero.string_of_uint.
  destruct (Z.to_int n) as [d|d]; destruct d; simpl; auto using quoteFree_uint;
    try (change (quoteFree (NilEmpty.string_of_uint d) = true); apply quoteFree_uint).
Qed.

End Quoting.

(** ** Timestamps *)

Section Timestamps.

Import JS.

Lemma allb_app p a b : allb p (a +:+ b) = allb p a && allb p b.
Proof.
  induction a as [|c a IH]; simpl; [reflexivity|].
  rewrite IH. now rewrite andb_assoc.
Qed.

Lemma allb_impl (p q : ascii -> bool) s :
  (forall c, p c = true -> q c = true) -> allb p s = true -> allb q s = true.
Proof.
  intros Hpq. induction s as [|c s IH]; simpl; [reflexivity|].
  intros [Hc Hs]%andb_true_iff. rewrite (Hpq _ Hc). simpl. auto.
Qed.

Lemma length_append (a b : string) :
  String.length (a +:+ b) = (String.length a + String.length b)%nat.
Proof. induction a as [|c a IH]; simpl; [reflexivity | now rewrite IH]. Qed.

Lemma substring_prefix (a b : string) :
  String.substring 0 (String.length a) (a +:+ b) = a.
Proof.
  induction a as [|c a IH]; simpl.
  - destruct b; reflexivity.
  - now rewrite IH.
Qed.

Lemma replace_first (pat rep : ascii) (a b : string) :
  allb (fun c => negb (Ascii.eqb c pat)) a = true ->
  replace pat rep (a +:+ String pat b) = a +:+ String rep b.
Proof.
  induction a as [|c a IH]; simpl.
  - intros _. now rewrite Ascii.eqb_refl.
  - intros [Hc Ha]%andb_true_iff.
    apply negb_true_iff in Hc. rewrite Hc. now rewrite IH.
Qed.

Lemma isDateChar_not_T c : isDateChar c = true -> negb (Ascii.eqb c "T") = true.
Proof.
  destruct c as [[] [] [] [] [] [] [] []]; vm_compute; congruence.
Qed.

Lemma isDateChar_plain c :
  isDateChar c = true -> SqlString.lookupChar c SqlString.CHARS_ESCAPE_MAP = None.
Proof.
  destruct c as [[] [] [] [] [] [] [] []]; vm_compute; congruence.
Qed.

Lemma escapeBody_plain s :
  allb isDateChar s = true -> SqlString.escapeBody s = s.
Proof.
  induction s as [|c s IH]; [reflexivity|].
  simpl allb. intros [Hc Hs]%andb_true_iff.
  change (SqlString.escapeBody (String c s))
    with (match SqlString.lookupChar c SqlString.CHARS_ESCAPE_MAP with
          | Some e => e +:+ SqlString.escapeBody s
          | None => String c (SqlString.escapeBody s)
          end).
  now rewrite (isDateChar_plain _ Hc), IH.
Qed.

Lemma padded_range (width : nat) (bound n : Z) :
  forallb (padded width) (seqZ 0 bound) = true ->
  0 <= n < bound ->
  String.length (pad width n) = width /\ allb isDateChar (pad width n) = true.
Proof.
  intros Hall Hn.
  assert (Hin : List.In n (seqZ 0 bound)).
  { apply list_elem_of_In, elem_of_seqZ. lia. }
  pose proof (proj1 (forallb_forall _ _) Hall n Hin) as H.
  unfold padded in H. apply andb_true_iff in H as [H1 H2].
  split; [now apply Nat.eqb_eq | exact H2].
Qed.

Lemma padded_4 : forallb (padded 4) (seqZ 0 10000) = true.
Proof. vm_compute. reflexivity. Qed.

Lemma padded_2 : forallb (padded 2) (seqZ 0 100) = true.
Proof. vm_compute. reflexivity. Qed.

Lemma slice_isoText (d : TimeValue) :
  calendar d -> slice 0 19 (isoText d) = toSecond "T" d.
Proof.
  intros (Hy & Hmo & Hd & Hh & Hmi & Hs).
  destruct (padded_range 4 10000 (year d) padded_4 ltac:(lia)) as [Ly _].
  destruct (padded_range 2 100 (month d) padded_2 ltac:(lia)) as [Lmo _].
  destruct (padded_range 2 100 (day d) padded_2 ltac:(lia)) as [Ld _].
  destruct (padded_range 2 100 (hours d) padded_2 ltac:(lia)) as [Lh _].
  destruct (padded_range 2 100 (minutes d) padded_2 ltac:(lia)) as [Lmi _].
  destruct (padded_range 2 100 (seconds d) padded_2 ltac:(lia)) as [Ls _].
  assert (Hlen : String.length (toSecond "T" d) = 19%nat).
  { unfold toSecond. rewrite !length_append, Ly, Lmo, Ld, Lh, Lmi, Ls. reflexivity. }
  assert (Hiso : isoText d
                 = toSecond "T" d +:+ "." +:+ pad 3 (milliseconds d) +:+ "Z").
  { unfold isoText, toSecond, isoYear.
    replace ((0 <=? year d) && (year d <=? 9999)) with true
      by (symmetry; apply andb_true_iff; split; apply Z.leb_le; lia).
    now rewrite !append_assoc. }
  rewrite Hiso. unfold slice. rewrite Nat.sub_0_r, <- Hlen.
  apply substring_prefix.
Qed.

Lemma toSecond_chars (d : TimeValue) :
  calendar d ->
  allb isDateChar (pad 4 (year d) +:+ "-" +:+ pad 2 (month d) +:+ "-" +:+ pad 2 (day d)) = true
  /\ allb isDateChar (toSecond " " d) = true.
Proof.
  intros (Hy & Hmo & Hd & Hh & Hmi & Hs).
  destruct (padded_range 4 10000 (year d) padded_4 ltac:(lia)) as [_ Cy].
  destruct (padded_range 2 100 (month d) padded_2 ltac:(lia)) as [_ Cmo].
  destruct (padded_range 2 100 (day d) padded_2 ltac:(lia)) as [_ Cd].
  destruct (padded_range 2 100 (hours d) padded_2 ltac:(lia)) as [_ Ch].
  destruct (padded_range 2 100 (minutes d) padded_2 ltac:(lia)) as [_ Cmi].
  destruct (padded_range 2 100 (seconds d) padded_2 ltac:(lia)) as [_ Cs].
  unfold toSecond. rewrite !allb_app, Cy, Cmo, Cd, Ch, Cmi, Cs. split; reflexivity.
Qed.

(** The escaped text of a date in a four-digit year. *)
Lemma escapeValue_calendar (d : TimeValue) :
  calendar d -> escapeValue (PDate (ValidDate d)) = Normal ("'" +:+ toSecond " " d +:+ "'").
Proof.
  intros Hd. destruct (toSecond_chars d Hd) as [Hdate Hall].
  simpl escapeValue. rewrite (slice_isoText d Hd).
  assert (Hrep : replace "T" " " (toSecond "T" d) = toSecond " " d).
  { unfold toSecond. apply replace_first.
    eapply allb_impl; [apply isDateChar_not_T | exact Hdate]. }
  rewrite Hrep. unfold SqlString.escape, SqlString.escapeString.
  now rewrite (escapeBody_plain _ Hall).
Qed.

Lemma allBelow_spec (p : Z -> bool) (bound n : Z) :
  allBelow p bound = true -> 0 <= n < bound -> p n = true.
Proof.
  unfold allBelow. intros Hall Hn.
  rewrite iter_nat_of_Z in Hall by lia.
  assert (Hgen : forall k : nat,
             let st := nat_rect (fun _ => (Z * bool)%type) (0, true)
                         (fun _ st => (fst st + 1, snd st && p (fst st))) k in
             fst st = Z.of_nat k
             /\ (snd st = true -> forall m, 0 <= m < Z.of_nat k -> p m = true)).
  { induction k as [|k [IH1 IH2]]; simpl.
    - split; [reflexivity | intros _ m Hm; lia].
    - split; [rewrite IH1; lia|].
      intros [Hs Hp]%andb_true_iff m Hm.
      destruct (Z.eq_dec m (Z.of_nat k)) as [->|Hne].
      + now rewrite <- IH1.
      + apply IH2; [exact Hs | lia]. }
  destruct (Hgen (Z.abs_nat bound)) as [_ H2].
  apply H2; [exact Hall|]. rewrite Zabs2Nat.id_abs, Z.abs_eq; lia.
Qed.

Lemma padded_6 : allBelow (padded 6) 275761 = true.
Proof. vm_compute. reflexivity. Qed.

Lemma padded_below (width : nat) (bound n : Z) :
  allBelow (padded width) bound = true ->
  0 <= n < bound ->
  String.length (pad width n) = width /\ allb isDateChar (pad width n) = true.
Proof.
  intros Hall Hn. pose proof (allBelow_spec _ _ _ Hall Hn) as H.
  unfold padded in H. apply andb_true_iff in H as [H1 H2].
  split; [now apply Nat.eqb_eq | exact H2].
Qed.

(** The escaped text of a date in a year of six digits. *)
Lemma escapeValue_extended (d : TimeValue) :
  extended d -> escapeValue (PDate (ValidDate d)) = Normal ("'" +:+ toMinute " " d +:+ "'").
Proof.
  intros (Hout & Hy & Hmo & Hd & Hh & Hmi & Hs).
  destruct (padded_below 6 275761 (Z.abs (year d)) padded_6 ltac:(lia)) as [Ly Cy].
  destruct (padded_range 2 100 (month d) padded_2 ltac:(lia)) as [Lmo Cmo].
  destruct (padded_range 2 100 (day d) padded_2 ltac:(lia)) as [Ld Cd].
  destruct (padded_range 2 100 (hours d) padded_2 ltac:(lia)) as [Lh Ch].
  destruct (padded_range 2 100 (minutes d) padded_2 ltac:(lia)) as [Lmi Cmi].
  set (date := pad 6 (Z.abs (year d)) +:+ "-" +:+ pad 2 (month d) +:+ "-" +:+ pad 2 (day d)).
  set (time := pad 2 (hours d) +:+ ":" +:+ pad 2 (minutes d)).
  assert (Hdate : allb isDateChar date = true /\ String.length date = 12%nat).
  { unfold date. rewrite !allb_app, !length_append, Cy, Cmo, Cd, Ly, Lmo, Ld.
    split; reflexivity. }
  assert (Htime : allb isDateChar time = true /\ String.length time = 5%nat).
  { unfold time. rewrite !allb_app, !length_append, Ch, Cmi, Lh, Lmi.
    split; reflexivity. }
  destruct Hdate as [Cdate Ldate]. destruct Htime as [Ctime Ltime].
  assert (Hiso : exists sign : ascii,
             (sign = "-"%char \/ sign = "+"%char)
             /\ toMinute " " d = String sign (date +:+ String " " time)
             /\ isoText d
                = String sign (date +:+ String "T" time)
                  +:+ (":" +:+ pad 2 (seconds d) +:+ "." +:+ pad 3 (milliseconds d) +:+ "Z")).
  { unfold isoText, isoYear, toMinute. fold date. fold time.
    replace ((0 <=? year d) && (year d <=? 9999)) with false
      by (symmetry; apply andb_false_iff;
          destruct Hout; [left; apply Z.leb_gt | right; apply Z.leb_gt]; lia).
    destruct (year d <? 0).
    - exists "-"%char. split; [now left|]. unfold date, time.
      repeat (rewrite ?append_assoc; cbn [String.append]). split; reflexivity.
    - exists "+"%char. split; [now right|]. unfold date, time.
      repeat (rewrite ?append_assoc; cbn [String.append]). split; reflexivity. }
  destruct Hiso as (sign & Hsign & -> & Hiso).
  simpl escapeValue. rewrite Hiso.
  assert (Hlen : String.length (String sign (date +:+ String "T" time)) = 19%nat).
  { simpl. rewrite length_append. simpl. rewrite Ldate, Ltime. reflexivity. }
  unfold slice. rewrite Nat.sub_0_r, <- Hlen, substring_prefix.
  assert (Hrep : replace "T" " " (String sign (date +:+ String "T" time))
                 = String sign (date +:+ String " " time)).
  { simpl replace. destruct Hsign as [-> | ->]; simpl; f_equal;
      apply replace_first; eapply allb_impl; try apply isDateChar_not_T; exact Cdate. }
  rewrite Hrep. unfold SqlString.escape, SqlString.escapeString.
  assert (Hbody : SqlString.escapeBody (String sign (date +:+ String " " time))
                  = String sign (date +:+ String " " time)).
  { assert (Hplain : allb isDateChar (date +:+ String " " time) = true).
    { rewrite allb_app, Cdate. simpl. exact Ctime. }
    change (SqlString.escapeBody (String sign (date +:+ String " " time)))
      with (match SqlString.lookupChar sign SqlString.CHARS_ESCAPE_MAP with
            | Some e => e +:+ SqlString.escapeBody (date +:+ String " " time)
            | None => String sign (SqlString.escapeBody (date +:+ String " " time))
            end).
    rewrite (escapeBody_plain _ Hplain).
    destruct Hsign as [-> | ->]; reflexivity. }
  now rewrite Hbody.
Qed.

End Timestamps.

(** ** The value escaper *)

(** Induction over a value, with the elements of an array at hand. *)
Lemma SqlParam_nested_ind (P : SqlParam -> Prop) :
  P PNull ->
  (forall s, P (PString s)) ->
  (forall n, P (PNumber n)) ->
  (forall b, P (PBoolean b)) ->
  (forall d, P (PDate d)) ->
  (forall values, Forall P values -> P (PArray values)) ->
  forall v, P v.
Proof.
  intros Hnull Hstr Hnum Hbool Hdate Harr.
  fix IH 1. intros [ | s | n | b | d | values].
  - exact Hnull.
  - apply Hstr.
  - apply Hnum.
  - apply Hbool.
  - apply Hdate.
  - apply Harr.
    induction values as [|v values IHvalues]; constructor; [apply IH | exact IHvalues].
Qed.

Lemma mapThrowing_Normal {A B} (f : A -> Completion B) (l : list A) (ys : list B) :
  Forall2 (fun x y => f x = Normal y) l ys -> mapThrowing f l = Normal ys.
Proof.
  induction 1 as [|x y l ys Hx _ IH]; [reflexivity|].
  simpl. now rewrite Hx, IH.
Qed.

Lemma mapThrowing_Throw {A B} (f : A -> Completion B) (before : list A) (x : A)
    (after : list A) (e : JS.Error) :
  Forall (fun x => exists y, f x = Normal y) before ->
  f x = Throw e ->
  mapThrowing f (before ++ x :: after) = Throw e.
Proof.
  intros Hbefore Hx. induction Hbefore as [|b before [y Hb] _ IH]; simpl.
  - now rewrite Hx.
  - now rewrite Hb, IH.
Qed.

Lemma mapThrowing_inv {A B} (f : A -> Completion B) (l : list A) (ys : list B) :
  mapThrowing f l = Normal ys -> Forall2 (fun x y => f x = Normal y) l ys.
Proof.
  revert ys. induction l as [|x l IH]; intros ys; simpl.
  - intros [= <-]. constructor.
  - destruct (f x) as [y|e] eqn:Hx; simpl; [|discriminate].
    destruct (mapThrowing f l) as [ys'|e] eqn:Hl; simpl; [|discriminate].
    intros [= <-]. constructor; [exact Hx | now apply IH].
Qed.

(** A value throws when it is escaped exactly when it holds an Invalid
    Date, and what it throws is the error of [toISOString]. *)
Lemma escapeValue_throws (v : SqlParam) :
  match escapeValue v with
  | Normal _ => invalid v = false
  | Throw e => invalid v = true /\ e = rangeError
  end.
Proof.
  induction v as [| s | n | b | d | values IH] using SqlParam_nested_ind;
    try reflexivity.
  - destruct d; simpl; [reflexivity | split; reflexivity].
  - change (escapeValue (PArray values))
      with (andThen (mapThrowing escapeValue values)
              (fun texts => Normal ("(" +:+ JS.join ", " texts +:+ ")"))).
    change (invalid (PArray values)) with (existsb invalid values).
    induction IH as [|v values Hv _ IHvalues]; [reflexivity|].
    simpl mapThrowing. simpl existsb.
    destruct (escapeValue v) as [text|e]; simpl.
    + rewrite Hv. simpl.
      destruct (mapThrowing escapeValue values) as [texts|e]; simpl in *; exact IHvalues.
    + destruct Hv as [-> ->]. split; reflexivity.
Qed.

(** C1. [escapeValue] turns [null] into [NULL]; an array into the
    parenthesised, comma-joined escapes of its elements, and it throws
    what the first element that throws has thrown; a valid date of a
    four-digit year into ['YYYY-MM-DD HH:MM:SS'], a valid date of any
    other year into its text to the minute, the year with a sign and six
    digits, and any valid date into the first nineteen characters of its
    ISO text with [T] replaced by a space, quoted; an Invalid Date throws
    [RangeError], and a value throws exactly when it holds one; a string
    becomes exactly one string literal, in which no quote closes the
    literal before its last character; a number or a boolean becomes text
    without any quote. [O'Brien] becomes the single literal ['O\'Brien']. *)
Theorem escapeValue_rules :
  escapeValue PNull = Normal "NULL"
  /\ (forall values texts,
        Forall2 (fun v text => escapeValue v = Normal text) values texts ->
        escapeValue (PArray values) = Normal ("(" +:+ JS.join ", " texts +:+ ")"))
  /\ (forall before v after e,
        Forall (fun v => exists text, escapeValue v = Normal text) before ->
        escapeValue v = Throw e ->
        escapeValue (PArray (before ++ v :: after)) = Throw e)
  /\ (forall t,
        calendar t ->
        escapeValue (PDate (JS.ValidDate t)) = Normal ("'" +:+ toSecond " " t +:+ "'"))
  /\ (forall t,
        extended t ->
        escapeValue (PDate (JS.ValidDate t)) = Normal ("'" +:+ toMinute " " t +:+ "'"))
  /\ (forall t,
        let text := JS.replace "T" " " (JS.slice 0 19 (JS.isoText t)) in
        escapeValue (PDate (JS.ValidDate t)) = Normal (SqlString.escapeString text)
        /\ Lexer.isStringLiteral (SqlString.escapeString text) = true)
  /\ escapeValue (PDate JS.InvalidDate) = Throw rangeError
  /\ (forall v, (exists e, escapeValue v = Throw e) <-> invalid v = true)
  /\ (forall v e, escapeValue v = Throw e -> e = rangeError)
  /\ (forall s,
        escapeValue (PString s) = Normal (SqlString.escapeString s)
        /\ Lexer.isStringLiteral (SqlString.escapeString s) = true)
  /\ (forall n, exists text,
        escapeValue (PNumber n) = Normal text /\ Lexer.quoteFree text = true)
  /\ (forall b, exists text,
        escapeValue (PBoolean b) = Normal text /\ Lexer.quoteFree text = true)
  /\ escapeValue (PString "O'Brien") = Normal "'O\'Brien'"
  /\ Lexer.isStringLiteral "'O\'Brien'" = true.
Proof.
  repeat match goal with |- _ /\ _ => split end; try reflexivity.
  - intros values texts Hall.
    change (escapeValue (PArray values))
      with (andThen (mapThrowing escapeValue values)
              (fun texts => Normal ("(" +:+ JS.join ", " texts +:+ ")"))).
    now rewrite (mapThrowing_Normal _ _ _ Hall).
  - intros before v after e Hbefore Hv.
    change (escapeValue (PArray (before ++ v :: after)))
      with (andThen (mapThrowing escapeValue (before ++ v :: after))
              (fun texts => Normal ("(" +:+ JS.join ", " texts +:+ ")"))).
    now rewrite (mapThrowing_Throw _ _ _ _ _ Hbefore Hv).
  - apply escapeValue_calendar.
  - apply escapeValue_extended.
  - intros t. cbv zeta. split; [reflexivity | apply escapeString_literal].
  - intros v. pose proof (escapeValue_throws v) as H. split.
    + intros [e He]. rewrite He in H. apply H.
    + intros Hv. destruct (escapeValue v) as [text|e]; [congruence | now exists e].
  - intros v e He. pose proof (escapeValue_throws v) as H. rewrite He in H. apply H.
  - intros s. split; [reflexivity | apply escapeString_literal].
  - intros n. eexists. split; [reflexivity | apply quoteFree_numberToString].
  - intros b. eexists. split; [reflexivity | destruct b; reflexivity].
Qed.

(** A timestamp of the year 2024, one of the year 10000, an array that
    is escaped and an array with an Invalid Date behind a string. *)
Lemma escapeValue_rules_witness :
  let t := JS.mkTimeValue 2024 1 2 3 4 5 678 in
  let far := JS.mkTimeValue 10000 1 1 0 0 59 0 in
  calendar t
  /\ escapeValue (PDate (JS.ValidDate t)) = Normal "'2024-01-02 03:04:05'"
  /\ extended far
  /\ escapeValue (PDate (JS.ValidDate far)) = Normal "'+010000-01-01 00:00'"
  /\ escapeValue (PArray [PNumber 1; PString "a"]) = Normal "(1, 'a')"
  /\ escapeValue (PArray [PString "a"; PDate JS.InvalidDate; PNumber 1]) = Throw rangeError.
Proof.
  assert (Ht : calendar (JS.mkTimeValue 2024 1 2 3 4 5 678))
    by (unfold calendar; simpl; lia).
  assert (Hfar : extended (JS.mkTimeValue 10000 1 1 0 0 59 0))
    by (unfold extended; simpl; lia).
  destruct escapeValue_rules as (_ & Harray & Hthrow & Hcalendar & Hextended & _).
  split; [exact Ht|]. split; [exact (Hcalendar _ Ht)|].
  split; [exact Hfar|]. split; [exact (Hextended _ Hfar)|].
  split.
  - apply (Harray [PNumber 1; PString "a"] ["1"; "'a'"]).
    repeat constructor.
  - apply (Hthrow [PString "a"] (PDate JS.InvalidDate) [PNumber 1] rangeError).
    + repeat constructor. now eexists.
    + reflexivity.
Defined.

(** The escape of a date is not always its text to the second. In the year
    10000 the ISO text starts with a sign and six digits, the nineteen
    characters end in the minutes, and two dates 59 seconds apart escape to
    the same text; an Invalid Date has no text at all. *)
Lemma escapeValue_date_cut_short :
  let midnight := JS.mkTimeValue 10000 1 1 0 0 0 0 in
  let later := JS.mkTimeValue 10000 1 1 0 0 59 0 in
  JS.toISOString (JS.ValidDate midnight) = inr "+010000-01-01T00:00:00.000Z"
  /\ JS.toISOString (JS.ValidDate later) = inr "+010000-01-01T00:00:59.000Z"
  /\ escapeValue (PDate (JS.ValidDate midnight)) = Normal "'+010000-01-01 00:00'"
  /\ escapeValue (PDate (JS.ValidDate later)) = Normal "'+010000-01-01 00:00'"
  /\ escapeValue (PDate (JS.ValidDate midnight))
     <> Normal ("'" +:+ toSecond " " midnight +:+ "'")
  /\ JS.toISOString JS.InvalidDate = inl (JS.mkRangeError "Invalid time value")
  /\ escapeValue (PDate JS.InvalidDate) = Throw (JS.mkRangeError "Invalid time value").
Proof.
  cbv zeta. repeat split; try reflexivity.
  vm_compute. intros H. discriminate H.
Qed.

(** A mixed array. *)
Example escapeValue_array :
  escapeValue (PArray [PNumber 1; PString "a'b"; PNull; PBoolean true])
  = Normal "(1, 'a\'b', NULL, true)".
Proof. reflexivity. Qed.

(** An array with an Invalid Date behind a string. *)
Example escapeValue_array_throws :
  escapeValue (PArray [PString "a"; PDate JS.InvalidDate; PNumber 1]) = Throw rangeError.
Proof. reflexivity. Qed.

(** ** The condition builder *)

Lemma buildCondition_misused column op value :
  Misused op value ->
  exists e, InvalidOperatorUsage e /\ buildCondition column op value = Throw e.
Proof.
  intros [v Hv | v Hv | v Hv].
  - exists betweenError. split; [constructor|].
    destruct v as [[]|]; try reflexivity. simpl in *.
    destruct (Nat.eqb_spec (List.length values) 2) as [E|_]; [|reflexivity].
    exfalso. apply Hv. now rewrite E.
  - exists (arrayError OpIn). split; [constructor|].
    destruct v as [[]|]; try reflexivity; discriminate.
  - exists (arrayError OpNotIn). split; [constructor|].
    destruct v as [[]|]; try reflexivity; discriminate.
Qed.

(** With a value of the right shape, whose escapes do not throw, the three
    operators build their fragment. *)
Lemma buildCondition_accepts column :
  (forall v0 v1 low high,
     escapeValue v0 = Normal low ->
     escapeValue v1 = Normal high ->
     buildCondition column OpBetween (Some (PArray [v0; v1]))
     = Normal (render column +:+ " BETWEEN " +:+ low +:+ " AND " +:+ high))
  /\ (forall values escaped,
        escapeValue (PArray values) = Normal escaped ->
        buildCondition column OpIn (Some (PArray values))
        = Normal (render column +:+ " IN " +:+ escaped))
  /\ (forall values escaped,
        escapeValue (PArray values) = Normal escaped ->
        buildCondition column OpNotIn (Some (PArray values))
        = Normal (render column +:+ " NOT IN " +:+ escaped)).
Proof.
  repeat split.
  - intros v0 v1 low high H0 H1. unfold buildCondition. simpl. now rewrite H0, H1.
  - intros values escaped H. unfold buildCondition. now rewrite H.
  - intros values escaped H. unfold buildCondition. now rewrite H.
Qed.

(** C2. [BETWEEN] with anything but an array of exactly two values, and
    [IN] or [NOT IN] with anything but an array, raise InvalidOperatorUsage
    when the condition is built: every method that builds a condition throws
    that error and leaves the builder as it was, and a chain that would go
    on to [execute] sends nothing to the client. *)
Theorem invalid_operator_usage column op value (w : World) :
  Misused op value ->
  exists e,
    InvalidOperatorUsage e
    /\ buildCondition column op value = Throw e
    /\ andWhere column op value w = (Throw e, w)
    /\ orWhere column op value w = (Throw e, w)
    /\ (_skipNext (this w) = false -> where_ column op value w = (Throw e, w))
    /\ (forall v, value = Some v ->
          having column op v w = (Throw e, w)
          /\ andHaving column op v w = (Throw e, w)
          /\ orHaving column op v w = (Throw e, w))
    /\ (forall g,
          Group.where_ column op value g w = (Throw e, w)
          /\ Group.andWhere column op value g w = (Throw e, w)
          /\ Group.orWhere column op value g w = (Throw e, w))
    /\ (andWhere column op value;; execute) w = (Throw e, w).
Proof.
  intros Hm. destruct (buildCondition_misused column op value Hm) as (e & He & Hb).
  exists e. split; [exact He|]. split; [exact Hb|].
  unfold andWhere, orWhere, where_, having, andHaving, orHaving,
    Group.where_, Group.andWhere, Group.orWhere, bind, lift, getThis.
  rewrite Hb. repeat split.
  - intros ->. reflexivity.
  - subst value. rewrite Hb. reflexivity.
  - subst value. rewrite Hb. reflexivity.
  - subst value. rewrite Hb. reflexivity.
Qed.

(** A [BETWEEN] with three values on a fresh builder. *)
Lemma invalid_operator_usage_witness :
  let column := Str "a" in
  let op := OpBetween in
  let value := Some (PArray [PNumber 1; PNumber 2; PNumber 3]) in
  let w := mkWorld (createQuery idleClient) [] in
  Misused op value
  /\ exists e,
       InvalidOperatorUsage e
       /\ buildCondition column op value = Throw e
       /\ andWhere column op value w = (Throw e, w)
       /\ orWhere column op value w = (Throw e, w)
       /\ (_skipNext (this w) = false -> where_ column op value w = (Throw e, w))
       /\ (forall v, value = Some v ->
             having column op v w = (Throw e, w)
             /\ andHaving column op v w = (Throw e, w)
             /\ orHaving column op v w = (Throw e, w))
       /\ (forall g,
             Group.where_ column op value g w = (Throw e, w)
             /\ Group.andWhere column op value g w = (Throw e, w)
             /\ Group.orWhere column op value g w = (Throw e, w))
       /\ (andWhere column op value;; execute) w = (Throw e, w).
Proof.
  assert (Hm : Misused OpBetween (Some (PArray [PNumber 1; PNumber 2; PNumber 3])))
    by (constructor; simpl; discriminate).
  split; [exact Hm|].
  exact (invalid_operator_usage (Str "a") OpBetween
           (Some (PArray [PNumber 1; PNumber 2; PNumber 3]))
           (mkWorld (createQuery idleClient) []) Hm).
Defined.

(** One value, three values and a scalar are all refused. *)
Example between_one_value :
  buildCondition (Str "a") OpBetween (Some (PArray [PNumber 1])) = Throw betweenError
  /\ buildCondition (Str "a") OpBetween (Some (PArray [PNumber 1; PNumber 2; PNumber 3]))
     = Throw betweenError
  /\ buildCondition (Str "a") OpIn (Some (PNumber 1)) = Throw (arrayError OpIn)
  /\ buildCondition (Str "a") OpNotIn None = Throw (arrayError OpNotIn).
Proof. repeat split. Qed.

(** ** Conditional chaining *)

Lemma getKey_assignKey_eq k v t : getKey k (assignKey k v t) = Some v.
Proof.
  induction t as [|[k' v'] t IH]; simpl.
  - now rewrite String.eqb_refl.
  - destruct (String.eqb k' k) eqn:E; simpl; rewrite E; [reflexivity | exact IH].
Qed.

(** C3. [if(false)] sets the skip flag and changes nothing else. While
    the flag is set, [select], [where] and [orderBy] leave the builder as it
    is, where with the flag clear they set the columns, append the condition
    and append the ordering. Every other method does under the flag what it
    does without it: [from], [andWhere], [orWhere], [groupBy], the having
    methods, the joins, [limit], [settings], [with] and the commit of a
    where group all change the builder. [endIf] clears the flag whatever it
    was, so [if(false).select(['x']).endIf().select(['y'])] selects [y]. *)
Theorem skip_flag_asymmetry (q : Query) (net : list string) :
  let w := mkWorld q net in
  let skipping := snd (if_ false w) in
  let cleared := snd (endIf skipping) in
  let after (call : M unit) := this (snd (call skipping)) in
  (forall cond,
     fst (if_ cond w) = Normal tt
     /\ _skipNext (this (snd (if_ cond w))) = negb cond
     /\ sameButSkip q (this (snd (if_ cond w)))
     /\ network (snd (if_ cond w)) = net)
  /\ _skipNext (this skipping) = true
  /\ (forall columns, select columns skipping = (Normal tt, skipping))
  /\ (forall column op value, where_ column op value skipping = (Normal tt, skipping))
  /\ (forall column dir, orderBy column dir skipping = (Normal tt, skipping))
  /\ (forall columns, _select (this (snd (select columns cleared))) = columns)
  /\ (forall column op value text,
        buildCondition column op value = Normal text ->
        _where (this (snd (where_ column op value cleared)))
        = _where q ++ [mkWhere text AND false])
  /\ (forall column dir,
        _orderBy (this (snd (orderBy column dir cleared)))
        = _orderBy q ++ [mkOrderBy column dir])
  /\ (forall table final,
        _from (after (from table final)) = Some table
        /\ _final (after (from table final)) = final)
  /\ (forall column op value text,
        buildCondition column op value = Normal text ->
        _where (after (andWhere column op value)) = _where q ++ [mkWhere text AND false]
        /\ _where (after (orWhere column op value)) = _where q ++ [mkWhere text OR false])
  /\ (forall columns, _groupBy (after (groupBy columns)) = List.map render columns)
  /\ (forall column op value text,
        buildCondition column op (Some value) = Normal text ->
        _having (after (having column op value)) = _having q ++ [mkHaving text AND]
        /\ _having (after (andHaving column op value)) = _having q ++ [mkHaving text AND]
        /\ _having (after (orHaving column op value)) = _having q ++ [mkHaving text OR])
  /\ (forall table cond final,
        _joins (after (join table cond final)) = _joins q ++ [mkJoin INNER table cond final]
        /\ _joins (after (leftJoin table cond final))
           = _joins q ++ [mkJoin LEFT table cond final]
        /\ _joins (after (rightJoin table cond final))
           = _joins q ++ [mkJoin RIGHT table cond final]
        /\ _joins (after (fullJoin table cond final))
           = _joins q ++ [mkJoin FULL table cond final]
        /\ _joins (after (crossJoin table final))
           = _joins q ++ [mkJoin CROSS table (Str "") final])
  /\ (forall n offset,
        _limit (after (limit n offset)) = Some n
        /\ _offset (after (limit n offset))
           = match offset with
             | Some o => Some o
             | None => _offset q
             end)
  /\ (forall k v, getKey k (_settings (after (settings [(k, v)]))) = Some v)
  /\ (forall name body, _ctes (after (with_ name body)) = _ctes q ++ [mkCTE name body])
  /\ (forall g,
        _where (after (Group.end_ g))
        = _where q ++ [mkWhere (Group.groupCondition g) (groupOperator g) true])
  /\ (forall c,
        skipped c = false ->
        fst (perform c skipping) = fst (perform c cleared)
        /\ sameButSkip (this (snd (perform c cleared))) (this (snd (perform c skipping)))
        /\ network (snd (perform c skipping)) = network (snd (perform c cleared)))
  /\ (forall cond,
        let ended := snd (endIf (snd (if_ cond w))) in
        fst (endIf (snd (if_ cond w))) = Normal tt
        /\ _skipNext (this ended) = false
        /\ sameButSkip q (this ended)
        /\ network ended = net)
  /\ (forall c,
        fst ((if_ false;; select [Str "x"];; endIf;; select [Str "y"];; toSQL)
               (mkWorld (createQuery c) net))
        = Normal "SELECT y").
Proof.
  destruct q as [s f wh g h o l off fin st ct j sk cl]. cbv zeta.
  unfold sameButSkip.
  repeat match goal with |- _ /\ _ => split end;
    try (intros; repeat split; reflexivity).
  - intros column op value text Hb.
    unfold where_, bind, lift, getThis. simpl. now rewrite Hb.
  - intros column op value text Hb.
    unfold andWhere, orWhere, bind, lift. simpl. rewrite Hb. split; reflexivity.
  - intros column op value text Hb.
    unfold having, andHaving, orHaving, bind, lift. simpl. rewrite Hb.
    repeat split; reflexivity.
  - intros n [offset|]; split; reflexivity.
  - intros k v. simpl. apply getKey_assignKey_eq.
  - intros c Hc.
    destruct c; try discriminate Hc;
      unfold perform, andWhere, orWhere, having, andHaving, orHaving, limit,
        execute, toSQL, buildQuery, bind, lift, getThis; simpl;
      repeat match goal with
        | |- context [buildCondition ?a ?b ?c] => destruct (buildCondition a b c); simpl
        | |- context [query ?a ?b] => destruct (query a b); simpl
        | |- context [match ?x with Some _ => _ | None => _ end] => destruct x; simpl
        end;
      repeat split; reflexivity.
Qed.

(** Conditions that are built, and a call of [from], on a fresh builder
    after [if(false)]. *)
Lemma skip_flag_asymmetry_witness :
  let w := mkWorld (createQuery idleClient) [] in
  let skipping := snd (if_ false w) in
  let cleared := snd (endIf skipping) in
  buildCondition (Str "a") OpEq (Some (PNumber 1)) = Normal "a = 1"
  /\ buildCondition (Str "n") OpGt (Some (PNumber 1)) = Normal "n > 1"
  /\ skipped (CallFrom "t" false) = false
  /\ _where (this (snd (where_ (Str "a") OpEq (Some (PNumber 1)) cleared)))
     = [mkWhere "a = 1" AND false]
  /\ _where (this (snd (andWhere (Str "a") OpEq (Some (PNumber 1)) skipping)))
     = [mkWhere "a = 1" AND false]
  /\ _having (this (snd (having (Str "n") OpGt (PNumber 1) skipping)))
     = [mkHaving "n > 1" AND]
  /\ fst (perform (CallFrom "t" false) skipping) = fst (perform (CallFrom "t" false) cleared).
Proof.
  pose proof (skip_flag_asymmetry (createQuery idleClient) []) as H. cbv zeta in H.
  destruct H as (_ & _ & _ & _ & _ & _ & Hwhere & _ & _ & Hand & _ & Hhaving
                 & _ & _ & _ & _ & _ & Hother & _).
  split; [reflexivity|]. split; [reflexivity|]. split; [reflexivity|].
  split; [exact (Hwhere (Str "a") OpEq (Some (PNumber 1)) "a = 1" eq_refl)|].
  split; [exact (proj1 (Hand (Str "a") OpEq (Some (PNumber 1)) "a = 1" eq_refl))|].
  split; [exact (proj1 (Hhaving (Str "n") OpGt (PNumber 1) "n > 1" eq_refl))|].
  exact (proj1 (Hother (CallFrom "t" false) eq_refl)).
Defined.

(** ** [where] and [andWhere] *)

(** After [if(false)], [where] adds nothing and [andWhere] adds its
    condition. *)
Lemma where_andWhere_differ :
  where_ (Str "a") OpEq (Some (PNumber 1)) skippingWorld = (Normal tt, skippingWorld)
  /\ _where (this (snd (andWhere (Str "a") OpEq (Some (PNumber 1)) skippingWorld)))
     = [mkWhere "a = 1" AND false]
  /\ where_ (Str "a") OpEq (Some (PNumber 1)) skippingWorld
     <> andWhere (Str "a") OpEq (Some (PNumber 1)) skippingWorld.
Proof.
  split; [reflexivity|]. split; [reflexivity|].
  vm_compute. intros H. discriminate H.
Qed.

(** C4. On a builder whose skip flag is clear, [where] and [andWhere] do the
    same: both throw the same error, or both append the same condition with
    the joiner AND to the WHERE sequence. *)
Theorem where_andWhere_synonyms column op value (w : World) :
  _skipNext (this w) = false ->
  where_ column op value w = andWhere column op value w
  /\ (forall condition,
        buildCondition column op value = Normal condition ->
        where_ column op value w
        = (Normal tt,
           mkWorld (push_where (mkWhere condition AND false) (this w)) (network w))).
Proof.
  intros Hskip. unfold where_, andWhere, bind, getThis. rewrite Hskip.
  split; [reflexivity|].
  intros condition Hb. unfold lift. rewrite Hb. reflexivity.
Qed.

Lemma where_andWhere_synonyms_witness :
  let column := Str "a" in
  let op := OpEq in
  let value := Some (PNumber 1) in
  let w := mkWorld (createQuery idleClient) [] in
  _skipNext (this w) = false
  /\ where_ column op value w = andWhere column op value w
  /\ (forall condition,
        buildCondition column op value = Normal condition ->
        where_ column op value w
        = (Normal tt,
           mkWorld (push_where (mkWhere condition AND false) (this w)) (network w))).
Proof.
  split; [reflexivity|].
  exact (where_andWhere_synonyms (Str "a") OpEq (Some (PNumber 1))
           (mkWorld (createQuery idleClient) []) eq_refl).
Defined.

(** ** Rendering the WHERE sequence *)

Lemma imap_tail {A B} (f : nat -> A -> B) (g : A -> B) (l : list A) :
  (forall i x, f (S i) x = g x) -> imap (f ∘ S) l = List.map g l.
Proof.
  revert f. induction l as [|a l IH]; intros f Hf; [reflexivity|].
  rewrite imap_cons. simpl. f_equal; [apply Hf|].
  apply IH. intros i x. apply Hf.
Qed.

Lemma buildWhereConditions_cons (c : WhereCondition) (cs : list WhereCondition) :
  buildWhereConditions (c :: cs)
  = conditionText c +:+ String.concat "" (List.map joined cs).
Proof.
  unfold buildWhereConditions. rewrite imap_cons.
  rewrite (imap_tail _ (fun w => joinerText (operator w) +:+ " " +:+ conditionText w))
    by reflexivity.
  rewrite join_cons, List.map_map. reflexivity.
Qed.

Lemma buildWhereConditions_snoc (p : WhereCondition) (ps : list WhereCondition)
    (c : WhereCondition) :
  buildWhereConditions ((p :: ps) ++ [c]) = buildWhereConditions (p :: ps) +:+ joined c.
Proof.
  change ((p :: ps) ++ [c]) with (p :: (ps ++ [c])).
  rewrite !buildWhereConditions_cons, List.map_app, concat_empty_app.
  simpl List.map. rewrite concat_empty_cons. simpl String.concat.
  now rewrite append_empty_r, append_assoc.
Qed.

(** C5. A non-empty WHERE sequence is rendered in its order: the first
    condition without its joiner, every later one behind its own joiner;
    [where('a','=',1).orWhere('b','=',2)] renders [WHERE a = 1 OR b = 2]. *)
Theorem where_rendering :
  (forall c cs,
     buildWhereConditions (c :: cs)
     = conditionText c +:+ String.concat "" (List.map joined cs))
  /\ (forall q,
        _where q <> [] ->
        exists before after,
          buildQuery_parts q
          = before ++ ["WHERE"; buildWhereConditions (_where q)] ++ after)
  /\ (forall c,
        fst ((where_ (Str "a") OpEq (Some (PNumber 1));;
              orWhere (Str "b") OpEq (Some (PNumber 2));;
              toSQL) (mkWorld (createQuery c) []))
        = Normal "SELECT * WHERE a = 1 OR b = 2").
Proof.
  split; [exact buildWhereConditions_cons|]. split; [|reflexivity].
  intros q Hne. destruct q as [s f w g h o l off fin st c j sk cl].
  simpl in Hne. destruct w as [|w0 ws]; [congruence|].
  simpl. rewrite !app_assoc. do 2 eexists. reflexivity.
Qed.

(** ** Where groups *)

(** C6. [whereGroup()] starts a group with the outer joiner AND and
    [orWhereGroup()] one with OR; the group's methods add to its own
    conditions; [end()] appends exactly one grouped condition to the parent,
    whose text is the group's conditions joined in order, the first without
    its joiner and the others behind theirs, and which is rendered between
    parentheses behind the outer joiner: after a condition [x = 0] the group
    renders [WHERE x = 0 AND (a = 1 OR b = 2)]. *)
Theorem where_group_end :
  let built (c : Completion string) (j : Joiner) (g : WhereGroupBuilder) (w : World) :=
    match c with
    | Normal text =>
        (Normal (mkGroup (conditions g ++ [mkWhere text j false]) (groupOperator g)), w)
    | Throw e => (Throw e, w)
    end in
  (forall w, whereGroup w = (Normal (mkGroup [] AND), w))
  /\ (forall w, orWhereGroup w = (Normal (mkGroup [] OR), w))
  /\ (forall column op value g w,
        Group.where_ column op value g w = built (buildCondition column op value) AND g w
        /\ Group.andWhere column op value g w = built (buildCondition column op value) AND g w
        /\ Group.orWhere column op value g w = built (buildCondition column op value) OR g w)
  /\ (forall g w,
        Group.end_ g w
        = (Normal tt,
           mkWorld (push_where (mkWhere (Group.groupCondition g) (groupOperator g) true)
                               (this w))
                   (network w))
        /\ _where (push_where (mkWhere (Group.groupCondition g) (groupOperator g) true)
                              (this w))
           = _where (this w) ++ [mkWhere (Group.groupCondition g) (groupOperator g) true])
  /\ (forall c cs outer,
        Group.groupCondition (mkGroup (c :: cs) outer)
        = condition c
          +:+ String.concat ""
                (List.map (fun x => " " +:+ joinerText (operator x) +:+ " " +:+ condition x) cs))
  /\ (forall p ps g,
        buildWhereConditions
          ((p :: ps) ++ [mkWhere (Group.groupCondition g) (groupOperator g) true])
        = buildWhereConditions (p :: ps)
          +:+ " " +:+ joinerText (groupOperator g)
          +:+ " (" +:+ Group.groupCondition g +:+ ")")
  /\ (forall c,
        fst ((where_ (Str "x") OpEq (Some (PNumber 0));;
              g <- whereGroup;;
              g <- Group.where_ (Str "a") OpEq (Some (PNumber 1)) g;;
              g <- Group.orWhere (Str "b") OpEq (Some (PNumber 2)) g;;
              Group.end_ g;;
              toSQL) (mkWorld (createQuery c) []))
        = Normal "SELECT * WHERE x = 0 AND (a = 1 OR b = 2)").
Proof.
  cbv zeta.
  repeat match goal with |- _ /\ _ => split end; try reflexivity.
  - intros column op value g w.
    unfold Group.where_, Group.andWhere, Group.orWhere, bind, lift.
    destruct (buildCondition column op value); repeat split; reflexivity.
  - intros g [[] ?]. split; reflexivity.
  - intros c cs outer. unfold Group.groupCondition. simpl conditions.
    rewrite imap_cons.
    rewrite (imap_tail _ (fun x => joinerText (operator x) +:+ " " +:+ condition x))
      by reflexivity.
    rewrite join_cons, List.map_map. reflexivity.
  - intros p ps g. rewrite buildWhereConditions_snoc. reflexivity.
Qed.

(** ** Limit and offset *)

Lemma join_app_cons (sep : string) (l1 : list string) (x : string) (l2 : list string) :
  exists pre, JS.join sep (l1 ++ x :: l2) = pre +:+ JS.join sep (x :: l2).
Proof.
  induction l1 as [|a l1 [pre IH]].
  - exists "". reflexivity.
  - exists (a +:+ sep +:+ pre). unfold JS.join in *.
    change ((a :: l1) ++ x :: l2) with (a :: (l1 ++ x :: l2)).
    destruct (l1 ++ x :: l2) as [|b l] eqn:E.
    + destruct l1; discriminate E.
    + change (String.concat sep (a :: b :: l))
        with (a +:+ sep +:+ String.concat sep (b :: l)).
      rewrite IH. now rewrite !append_assoc.
Qed.

(** C10. [limit(n)] without an offset sets the limit to [n] and nothing
    else: an offset set by an earlier [limit(m, o)] stays, and the rendered
    statement still carries [LIMIT n OFFSET o]. *)
Theorem limit_keeps_offset (q : Query) (net : list string) (n : Z) :
  limit n None (mkWorld q net) = (Normal tt, mkWorld (set_limit (Some n) q) net)
  /\ (let q' := set_limit (Some n) q in
      _limit q' = Some n /\ _offset q' = _offset q
      /\ _select q' = _select q /\ _from q' = _from q /\ _where q' = _where q
      /\ _groupBy q' = _groupBy q /\ _having q' = _having q /\ _orderBy q' = _orderBy q
      /\ _final q' = _final q /\ _settings q' = _settings q /\ _ctes q' = _ctes q
      /\ _joins q' = _joins q /\ _skipNext q' = _skipNext q /\ client q' = client q)
  /\ (forall m o,
        let w' := snd ((limit m (Some o);; limit n None) (mkWorld q net)) in
        _limit (this w') = Some n
        /\ _offset (this w') = Some o
        /\ (exists before after,
              buildQuery_parts (this w')
              = before ++ ["LIMIT " +:+ JS.numberToString n;
                           "OFFSET " +:+ JS.numberToString o] ++ after)
        /\ (exists pre post,
              buildQuery (this w')
              = pre +:+ "LIMIT " +:+ JS.numberToString n
                +:+ " OFFSET " +:+ JS.numberToString o +:+ post)).
Proof.
  destruct q as [s f w g h o' l off fin st c j sk cl].
  split; [reflexivity|]. split; [cbv zeta; repeat split|].
  intros m o. cbv zeta.
  split; [reflexivity|]. split; [reflexivity|].
  assert (Hparts : exists before after,
             buildQuery_parts
               (this (snd ((limit m (Some o);; limit n None)
                             (mkWorld (mkQuery s f w g h o' l off fin st c j sk cl) net))))
             = before ++ ["LIMIT " +:+ JS.numberToString n;
                          "OFFSET " +:+ JS.numberToString o] ++ after).
  { simpl. rewrite !app_assoc. do 2 eexists. reflexivity. }
  split; [exact Hparts|].
  unfold buildQuery. destruct Hparts as (before & after & ->).
  destruct (join_app_cons " " before ("LIMIT " +:+ JS.numberToString n)
              (("OFFSET " +:+ JS.numberToString o) :: after)) as [pre Hpre].
  exists pre.
  exists (String.concat "" (List.map (fun y => " " +:+ y) after)).
  change (before ++ ["LIMIT " +:+ JS.numberToString n;
                     "OFFSET " +:+ JS.numberToString o] ++ after)
    with (before ++ ("LIMIT " +:+ JS.numberToString n)
                 :: ("OFFSET " +:+ JS.numberToString o) :: after).
  rewrite Hpre. f_equal.
  change (JS.join " " (("LIMIT " +:+ JS.numberToString n)
                         :: ("OFFSET " +:+ JS.numberToString o) :: after))
    with (("LIMIT " +:+ JS.numberToString n) +:+ " "
          +:+ JS.join " " (("OFFSET " +:+ JS.numberToString o) :: after)).
  rewrite join_cons. now rewrite !append_assoc.
Qed.

(** [limit(5, 10).limit(7)] on a table. *)
Example limit_offset_rendered :
  fst ((from "t" false;; limit 5 (Some 10);; limit 7 None;; toSQL)
         (mkWorld (createQuery idleClient) []))
  = Normal "SELECT * FROM t LIMIT 7 OFFSET 10".
Proof. reflexivity. Qed.

(** ** The cohort query generator *)

Lemma lookup_map {A B} (f : A -> B) (l : list A) (i : nat) :
  List.map f l !! i = f <$> l !! i.
Proof. apply (list_lookup_fmap f l i). Qed.

Lemma length_range (n : Z) :
  Z.of_nat (List.length (JS.range 0 (n + 1))) = Z.max 0 (n + 1).
Proof. unfold JS.range. rewrite length_seqZ. lia. Qed.

Lemma lookup_range (n index : Z) :
  0 <= index <= n -> JS.range 0 (n + 1) !! Z.to_nat index = Some index.
Proof.
  intros H. unfold JS.range. rewrite lookup_seqZ_lt by lia. f_equal. lia.
Qed.

(** C7. The interval count is the difference in whole days for the minute,
    hour and day granularities, in whole weeks for week and in whole months
    for month. The generator makes one user-list expression and one
    user-count column for each index from 0 to the interval count, that is
    interval count plus one of each (and none when the end lies before the
    start); the user list at an index compares the lag with [>=] when the
    criteria is [on_or_after] and with [=] otherwise. *)
Theorem cohort_interval_columns {DateValue : Type}
    (differenceInDays differenceInWeeks differenceInMonths : DateValue -> DateValue -> Z)
    (interval : Cohort.TimeInterval) (startDate endDate : DateValue) (criteria : string) :
  let intervalCount :=
    Cohort.diffInterval differenceInDays differenceInWeeks differenceInMonths
      interval startDate endDate in
  intervalCount
  = match interval with
    | Cohort.minute | Cohort.hour | Cohort.day => differenceInDays endDate startDate
    | Cohort.week => differenceInWeeks endDate startDate
    | Cohort.month => differenceInMonths endDate startDate
    end
  /\ Cohort.sqlInterval interval
     = match interval with
       | Cohort.minute | Cohort.hour | Cohort.day => "DAY"
       | Cohort.week => "WEEK"
       | Cohort.month => "MONTH"
       end
  /\ Z.of_nat (List.length (Cohort.usersSelect_columns criteria intervalCount))
     = Z.max 0 (intervalCount + 1)
  /\ Z.of_nat (List.length (Cohort.countsSelect_columns intervalCount))
     = Z.max 0 (intervalCount + 1)
  /\ (0 <= intervalCount ->
      Z.of_nat (List.length (Cohort.usersSelect_columns criteria intervalCount))
      = intervalCount + 1
      /\ Z.of_nat (List.length (Cohort.countsSelect_columns intervalCount))
         = intervalCount + 1)
  /\ (forall index,
        0 <= index <= intervalCount ->
        Cohort.usersSelect_columns criteria intervalCount !! Z.to_nat index
        = Some ("groupUniqArrayIf(profile_id, x_after_cohort "
                +:+ (if String.eqb criteria "on_or_after" then ">=" else "=")
                +:+ " " +:+ JS.numberToString index
                +:+ ") AS interval_" +:+ JS.numberToString index +:+ "_users")
        /\ Cohort.countsSelect_columns intervalCount !! Z.to_nat index
           = Some ("length(interval_" +:+ JS.numberToString index
                   +:+ "_users) AS interval_" +:+ JS.numberToString index +:+ "_user_count"))
  /\ Cohort.usersSelect criteria intervalCount
     = JS.join Cohort.commaNewline (Cohort.usersSelect_columns criteria intervalCount)
  /\ Cohort.countsSelect intervalCount
     = JS.join Cohort.commaNewline (Cohort.countsSelect_columns intervalCount).
Proof.
  cbv zeta. split; [destruct interval; reflexivity|].
  split; [destruct interval; reflexivity|].
  unfold Cohort.usersSelect_columns, Cohort.countsSelect_columns.
  rewrite !length_map, !length_range.
  repeat split; try lia.
  - rewrite lookup_map, lookup_range by assumption. reflexivity.
  - rewrite lookup_map, lookup_range by assumption. reflexivity.
Qed.

(** Two days between start and end give three columns of each kind. *)
Example cohort_columns_two_days :
  Cohort.usersSelect_columns "on_or_after" 2
  = [ "groupUniqArrayIf(profile_id, x_after_cohort >= 0) AS interval_0_users";
      "groupUniqArrayIf(profile_id, x_after_cohort >= 1) AS interval_1_users";
      "groupUniqArrayIf(profile_id, x_after_cohort >= 2) AS interval_2_users" ]
  /\ Cohort.usersSelect_columns "on" 1
     = [ "groupUniqArrayIf(profile_id, x_after_cohort = 0) AS interval_0_users";
         "groupUniqArrayIf(profile_id, x_after_cohort = 1) AS interval_1_users" ]
  /\ Cohort.countsSelect_columns 1
     = [ "length(interval_0_users) AS interval_0_user_count";
         "length(interval_1_users) AS interval_1_user_count" ].
Proof. repeat split. Qed.

(** ** The cohort aggregator *)

(** C9. On an empty row sequence [processCohortData] returns the empty
    array: no cohort row and no weighted-average row. The empty input is the
    only one with an empty result: any other input gives the
    weighted-average row and one row for each cohort. *)
Theorem processCohortData_empty (diffInterval : Z) :
  Cohort.processCohortData [] diffInterval = []
  /\ (forall data, Cohort.processCohortData data diffInterval = [] <-> data = [])
  /\ (forall row rows,
        List.length (Cohort.processCohortData (row :: rows) diffInterval)
        = S (List.length (row :: rows))).
Proof.
  split; [reflexivity|]. split.
  - intros [|row rows]; split; intros H; try reflexivity; discriminate H.
  - intros row rows. simpl. now rewrite length_map.
Qed.

Section Aggregation.

Import Cohort.
#[local] Open Scope Qc_scope.

Lemma forEachStep_lookup rowSum entries k v i :
  forEachStep rowSum entries (k, v) !! i
  = (if decide (k = i) then contribution rowSum (Some v) else id) <$> entries !! i.
Proof.
  unfold forEachStep, contribution. simpl.
  destruct (decide (v = 0)) as [Hv|Hv].
  - destruct (decide (k = i)); now rewrite option_fmap_id.
  - rewrite list_lookup_alter.
    destruct (decide (k = i)) as [->|Hk]; [reflexivity|].
    now rewrite option_fmap_id.
Qed.

Lemma foldl_forEachStep_lookup rowSum (series : list Qc) :
  forall (k : nat) (entries : list Weighted) (i : nat),
    foldl (forEachStep rowSum) entries (imap (fun j v => ((k + j)%nat, v)) series) !! i
    = (if decide (k <= i)%nat then contribution rowSum (series !! (i - k)%nat) else id)
        <$> entries !! i.
Proof.
  induction series as [|v series IH]; intros k entries i.
  - simpl. destruct (decide (k <= i)%nat); now rewrite option_fmap_id.
  - rewrite imap_cons. simpl foldl.
    rewrite (imap_ext _ (fun j v => ((S k + j)%nat, v)))
      by (intros; unfold compose; f_equal; lia).
    rewrite IH, forEachStep_lookup, Nat.add_0_r.
    destruct (entries !! i) as [e|]; [simpl | now destruct (decide (S k <= i)%nat)].
    destruct (decide (k = i)) as [->|Hne].
    + destruct (decide (S i <= i)%nat); [lia|].
      destruct (decide (i <= i)%nat); [|lia].
      now rewrite Nat.sub_diag.
    + destruct (decide (S k <= i)%nat) as [Hlt|Hge].
      * destruct (decide (k <= i)%nat); [|lia].
        replace (i - k)%nat with (S (i - S k)) by lia. reflexivity.
      * destruct (decide (k <= i)%nat); [lia|]. reflexivity.
Qed.

(** The loop over one cohort's series, entry by entry. *)
Lemma accumulate_lookup rowSum series entries i :
  accumulate rowSum series entries !! i
  = contribution rowSum (series !! i) <$> entries !! i.
Proof.
  pose proof (foldl_forEachStep_lookup rowSum series 0 entries i) as H.
  rewrite Nat.sub_0_r in H.
  destruct (decide (0 <= i)%nat); [|lia]. exact H.
Qed.

Lemma addWeighted_zero (e : Weighted) :
  mkWeighted (weight e + 0) (weightedSum e + 0) = e.
Proof. destruct e. simpl. f_equal; ring. Qed.

Lemma contribution_valueAt (r : CohortRow) (i : nat) :
  contribution (sum r) (values r !! i)
  = if decide (valueAt i r <> 0) then addWeighted (sum r) (valueAt i r) else id.
Proof.
  unfold contribution, valueAt. destruct (values r !! i) as [v|]; simpl.
  - destruct (decide (v = 0)), (decide (v <> 0)); try contradiction; reflexivity.
  - destruct (decide ((0 : Qc) <> 0)); [contradiction | reflexivity].
Qed.

(** After the loop over the cohorts every entry has grown by the two
    sums over the contributing cohorts. *)
Lemma aggregate_values_lookup (rows : list CohortRow) :
  forall (averageData : AverageData) (i : nat),
    average_values (foldl aggregate averageData rows) !! i
    = (fun e => mkWeighted (weight e + sumOfSizes i rows)
                           (weightedSum e + sumOfWeighted i rows))
        <$> average_values averageData !! i.
Proof.
  induction rows as [|r rows IH]; intros averageData i.
  - simpl. destruct (average_values averageData !! i) as [e|]; [|reflexivity].
    simpl. f_equal. symmetry. apply addWeighted_zero.
  - simpl foldl. rewrite IH. simpl average_values. rewrite accumulate_lookup.
    destruct (average_values averageData !! i) as [e|]; [|reflexivity].
    simpl. f_equal.
    unfold sumOfSizes, sumOfWeighted, contributing. rewrite filter_cons.
    rewrite contribution_valueAt.
    destruct (decide (valueAt i r <> 0)); simpl; [f_equal; ring | reflexivity].
Qed.

Lemma emptyAverageData_lookup (diffInterval : Z) (i : nat) :
  average_values (emptyAverageData diffInterval) !! i
  = (fun _ => mkWeighted 0 0) <$> seq 0 (Z.to_nat (diffInterval + 1)) !! i.
Proof.
  simpl. rewrite lookup_map. unfold JS.range. rewrite Z.sub_0_r.
  destruct (decide (i < Z.to_nat (diffInterval + 1))%nat) as [Hlt|Hge].
  - rewrite lookup_seqZ_lt by lia. now rewrite lookup_seq_lt.
  - rewrite lookup_seqZ_ge by lia. now rewrite lookup_seq_ge by lia.
Qed.

(** The values of the weighted-average row are the weighted averages the
    specification describes, index by index. *)
Lemma averageRow_values (processed : list CohortRow) (diffInterval : Z) :
  List.map (fun e => if decide (0 < weight e) then round (weightedSum e / weight e) 0 else 0)
           (average_values (foldl aggregate (emptyAverageData diffInterval) processed))
  = List.map (fun index => weightedAverage index processed)
             (seq 0 (Z.to_nat (diffInterval + 1))).
Proof.
  apply list_eq. intros i.
  rewrite !lookup_map, aggregate_values_lookup, emptyAverageData_lookup.
  destruct (seq 0 (Z.to_nat (diffInterval + 1)) !! i) as [j|] eqn:Ej; [|reflexivity].
  apply lookup_seq in Ej as [-> _]. simpl.
  unfold weightedAverage. rewrite !Qcplus_0_l. reflexivity.
Qed.

Lemma Qc_list_eq (l1 l2 : list Qc) :
  List.map Qcanon.this l1 = List.map Qcanon.this l2 -> l1 = l2.
Proof.
  revert l2. induction l1 as [|x l1 IH]; intros [|y l2] H; try discriminate.
  - reflexivity.
  - injection H as Hxy Hl. f_equal; [|now apply IH].
    apply Qc_is_canon. now rewrite Hxy.
Qed.

End Aggregation.

Section WeightedAverage.

Import Cohort.
#[local] Open Scope Qc_scope.

Lemma Qc_lists_eq (l1 l2 : list (list Qc)) :
  List.map (List.map Qcanon.this) l1 = List.map (List.map Qcanon.this) l2 -> l1 = l2.
Proof.
  revert l2. induction l1 as [|x l1 IH]; intros [|y l2] H; try discriminate.
  - reflexivity.
  - injection H as Hxy Hl. f_equal; [now apply Qc_list_eq | now apply IH].
Qed.

Lemma total_nil (f : CohortRow -> Qc) : total f [] = 0.
Proof. reflexivity. Qed.

(** C8. For a non-empty input the result is the weighted-average row
    followed by the cohort rows. At every index the value of the
    weighted-average row is computed over the cohorts whose value at that
    index is non-zero only: with [size] the sum of their sizes and
    [weighted] the sum of their values times their sizes, it is
    [round(weighted / size, 0)], and [0] when no cohort contributes. For
    the cohorts [{sum: 10, values: [5, 0]}] and [{sum: 20, values: [0, 10]}]
    the weighted averages are [5] and [10]. *)
Theorem weighted_average_row :
  (forall (row : CohortData) (rows : list CohortData) (diffInterval : Z),
     let processed := List.map (processRow diffInterval) (row :: rows) in
     exists averageRow,
       processCohortData (row :: rows) diffInterval = averageRow :: processed
       /\ row_cohort_interval averageRow = "Weighted Average"
       /\ values averageRow
          = List.map
              (fun index =>
                 let size := total sum (contributing index processed) in
                 let weighted :=
                   total (fun r => valueAt index r * sum r) (contributing index processed) in
                 if decide (0 < size) then round (weighted / size) 0 else 0)
              (seq 0 (Z.to_nat (diffInterval + 1)))
       /\ (forall index v,
             contributing index processed = [] ->
             values averageRow !! index = Some v -> v = 0))
  /\ List.map sum (List.map (processRow 1) exampleData) = [num 10; num 20]
  /\ List.map values (processCohortData exampleData 1)
     = [ [num 5; num 10]; [num 5; num 0]; [num 0; num 10] ].
Proof.
  split; [|split].
  - intros row rows diffInterval processed.
    eexists. split; [reflexivity|]. split; [reflexivity|].
    assert (Hvalues := averageRow_values processed diffInterval).
    split; [exact Hvalues|].
    intros index v Hnone Hv'.
    assert (Hv : List.map (fun index => weightedAverage index processed)
                   (seq 0 (Z.to_nat (diffInterval + 1))) !! index = Some v)
      by (rewrite <- Hvalues; exact Hv').
    clear Hv'. rewrite lookup_map in Hv.
    destruct (seq 0 (Z.to_nat (diffInterval + 1)) !! index) as [j|] eqn:Ej;
      [|discriminate].
    apply lookup_seq in Ej as [-> _]. simpl in Hv. injection Hv as <-.
    unfold weightedAverage, sumOfSizes. rewrite Hnone, total_nil.
    destruct (decide ((0 : Qc) < 0)) as [Hlt|_]; [|reflexivity].
    exfalso. exact (Qclt_not_eq _ _ Hlt eq_refl).
  - reflexivity.
  - apply Qc_lists_eq. vm_compute. reflexivity.
Qed.

End WeightedAverage.

(** ** Literals of escaped values *)

Section Literals.

Import SqlString Lexer.

(** Text without a quote is read through without opening a literal. *)
Lemma scanText_quoteFree (a : string) (n : nat) (rest : string) :
  quoteFree a = true -> scanText false n (a +:+ rest) = scanText false n rest.
Proof.
  induction a as [|c a IH]; simpl; [reflexivity|].
  intros [Hc Ha]%andb_true_iff. apply negb_true_iff in Hc. rewrite Hc. auto.
Qed.

(** Inside a literal, an escaped body is read up to the quote behind it. *)
Lemma scanText_escapeBody (s : string) (n : nat) (rest : string) :
  scanText true n (escapeBody s +:+ String "'" rest) = scanText false (S n) rest.
Proof.
  induction s as [|c s IH]; [reflexivity|].
  change (escapeBody (String c s))
    with (match lookupChar c CHARS_ESCAPE_MAP with
          | Some e => e +:+ escapeBody s
          | None => String c (escapeBody s)
          end).
  destruct (lookupChar c CHARS_ESCAPE_MAP) as [e|] eqn:E.
  - destruct (lookupChar_escape _ _ E) as [x ->]. simpl. exact IH.
  - destruct (lookupChar_plain _ E) as [Hb Hq]. simpl. now rewrite Hb, Hq.
Qed.

Lemma scanText_escapeString (s : string) (n : nat) (rest : string) :
  scanText false n (escapeString s +:+ rest) = scanText false (S n) rest.
Proof.
  unfold escapeString. rewrite !append_assoc. simpl.
  apply scanText_escapeBody.
Qed.

Lemma scanText_join (values : list SqlParam) (texts : list string) :
  Forall2 (fun v text => forall n rest,
             scanText false n (text +:+ rest) = scanText false (n + leaves v) rest)
          values texts ->
  forall n rest,
    scanText false n (JS.join ", " texts +:+ rest)
    = scanText false (n + list_sum (List.map leaves values)) rest.
Proof.
  induction 1 as [|v text values texts Hv Hrest IH]; intros n rest.
  - simpl. now rewrite Nat.add_0_r.
  - destruct Hrest as [|v' text' values texts Hv' Hrest].
    + simpl. rewrite Hv. now rewrite Nat.add_0_r.
    + change (JS.join ", " (text :: text' :: texts))
        with (text +:+ ", " +:+ JS.join ", " (text' :: texts)).
      rewrite !append_assoc, Hv.
      rewrite (scanText_quoteFree ", ") by reflexivity.
      rewrite IH. simpl list_sum. f_equal. lia.
Qed.

Lemma Forall_Forall2 {A B} (P : A -> Prop) (R Q : A -> B -> Prop) (l : list A) (k : list B) :
  Forall P l ->
  Forall2 R l k ->
  (forall x y, P x -> R x y -> Q x y) ->
  Forall2 Q l k.
Proof.
  intros HP HR Himp. induction HR as [|x y l k Hxy _ IH]; [constructor|].
  apply Forall_cons in HP as [Hx HP]. constructor; [now apply Himp | now apply IH].
Qed.

(** Reading the text of an escaped value, whatever follows it. *)
Lemma scanText_escapeValue (v : SqlParam) :
  forall text,
    escapeValue v = Normal text ->
    forall n rest,
      scanText false n (text +:+ rest) = scanText false (n + leaves v) rest.
Proof.
  induction v as [ | s | z | b | d | values IH] using SqlParam_nested_ind;
    intros text Hv n rest.
  - injection Hv as <-. simpl. now rewrite Nat.add_0_r.
  - injection Hv as <-. simpl escape. rewrite scanText_escapeString.
    simpl. f_equal. lia.
  - injection Hv as <-. simpl escape.
    rewrite scanText_quoteFree by apply quoteFree_numberToString.
    simpl. now rewrite Nat.add_0_r.
  - injection Hv as <-. destruct b; simpl; now rewrite Nat.add_0_r.
  - destruct d as [t|]; [|discriminate Hv].
    injection Hv as <-. simpl escape. rewrite scanText_escapeString.
    simpl. f_equal. lia.
  - change (escapeValue (PArray values))
      with (andThen (mapThrowing escapeValue values)
              (fun texts => Normal ("(" +:+ JS.join ", " texts +:+ ")"))) in Hv.
    destruct (mapThrowing escapeValue values) as [texts|e] eqn:Hmap; [|discriminate Hv].
    injection Hv as <-.
    apply mapThrowing_inv in Hmap.
    change (String "(" (JS.join ", " texts +:+ ")") +:+ rest)
      with ("(" +:+ ((JS.join ", " texts +:+ ")") +:+ rest)).
    rewrite append_assoc.
    rewrite (scanText_quoteFree "(") by reflexivity.
    rewrite (scanText_join values texts).
    + rewrite (scanText_quoteFree ")") by reflexivity. reflexivity.
    + eapply Forall_Forall2; [exact IH | exact Hmap |].
      intros x y Hx Hxy. now apply Hx.
Qed.

(** Every text [escapeValue] returns, for arrays and arrays of arrays too,
    reads back as complete literals only: one for each string and each date
    of the value, and the text never ends inside a literal. The one value
    without a text is a value that holds an Invalid Date, for which
    [escapeValue] throws the error of [toISOString]. *)
Theorem escapeValue_literals (v : SqlParam) :
  match escapeValue v with
  | Normal text => invalid v = false /\ literals text = Some (leaves v)
  | Throw e => invalid v = true /\ e = rangeError
  end.
Proof.
  pose proof (escapeValue_throws v) as Hthrows.
  pose proof (scanText_escapeValue v) as Hscan.
  destruct (escapeValue v) as [text|e]; [|exact Hthrows].
  split; [exact Hthrows|].
  unfold literals.
  rewrite <- (append_empty_r text), (Hscan text eq_refl). reflexivity.
Qed.

End Literals.

Section ConditionLiterals.

Import SqlString Lexer.

Lemma quoteFree_operatorText (op : Operator) : quoteFree (operatorText op) = true.
Proof. destruct op; reflexivity. Qed.

Lemma scanText_escapeArgument (value : option SqlParam) (text : string) :
  escapeArgument value = Normal text ->
  forall n rest,
    scanText false n (text +:+ rest) = scanText false (n + argumentLeaves value) rest.
Proof.
  destruct value as [v|]; simpl escapeArgument.
  - apply scanText_escapeValue.
  - intros [= <-] n rest. simpl. now rewrite Nat.add_0_r.
Qed.

(** A condition built on a column without quotes holds exactly the literals
    of its value, each read back complete: no value, whatever its text, can
    close a literal early or leave one open. *)
Theorem buildCondition_literals column op value text :
  quoteFree (render column) = true ->
  buildCondition column op value = Normal text ->
  literals text = Some (conditionLeaves op value).
Proof.
  intros Hcol Hb. unfold literals.
  assert (Hdefault :
            forall escaped,
              escapeArgument value = Normal escaped ->
              scanText false 0
                (render column +:+ " " +:+ operatorText op +:+ " " +:+ escaped)
              = Some (argumentLeaves value)).
  { intros escaped He.
    rewrite (scanText_quoteFree _ _ _ Hcol).
    rewrite (scanText_quoteFree " ") by reflexivity.
    rewrite (scanText_quoteFree _ _ _ (quoteFree_operatorText op)).
    rewrite (scanText_quoteFree " ") by reflexivity.
    rewrite <- (append_empty_r escaped), (scanText_escapeArgument _ _ He).
    reflexivity. }
  destruct op; unfold buildCondition in Hb; cbv zeta in Hb.
  1-6, 9-10:
    destruct (escapeArgument value) as [escaped|e] eqn:He; [|discriminate Hb];
    injection Hb as <-; first [exact (Hdefault escaped He) | exact (Hdefault escaped eq_refl)].
  - destruct value as [[ | | | | | values]|]; try discriminate Hb.
    destruct (escapeValue (PArray values)) as [escaped|e] eqn:He; [|discriminate Hb].
    injection Hb as <-. first [exact (Hdefault escaped He) | exact (Hdefault escaped eq_refl)].
  - destruct value as [[ | | | | | values]|]; try discriminate Hb.
    destruct (escapeValue (PArray values)) as [escaped|e] eqn:He; [|discriminate Hb].
    injection Hb as <-. first [exact (Hdefault escaped He) | exact (Hdefault escaped eq_refl)].
  - injection Hb as <-. now rewrite (scanText_quoteFree _ _ _ Hcol).
  - injection Hb as <-. now rewrite (scanText_quoteFree _ _ _ Hcol).
  - destruct value as [[ | | | | | values]|]; try discriminate Hb.
    destruct values as [|v0 [|v1 [|v2 values]]]; try discriminate Hb.
    change (andThen (escapeValue v0) (fun low =>
            andThen (escapeValue v1) (fun high =>
            Normal (render column +:+ " BETWEEN " +:+ low +:+ " AND " +:+ high)))
            = Normal text) in Hb.
    destruct (escapeValue v0) as [low|e] eqn:H0; [|discriminate Hb].
    destruct (escapeValue v1) as [high|e] eqn:H1; [|discriminate Hb].
    injection Hb as <-.
    rewrite (scanText_quoteFree _ _ _ Hcol).
    simpl scanText. rewrite (scanText_escapeValue v0 low H0).
    simpl scanText.
    rewrite <- (append_empty_r high), (scanText_escapeValue v1 high H1).
    simpl. f_equal. lia.
Qed.

Lemma buildCondition_literals_witness :
  quoteFree (render (Str "name")) = true
  /\ buildCondition (Str "name") OpIn (Some (PArray [PString "a'b"; PString "c"]))
     = Normal "name IN ('a\'b', 'c')"
  /\ literals "name IN ('a\'b', 'c')"
     = Some (conditionLeaves OpIn (Some (PArray [PString "a'b"; PString "c"]))).
Proof.
  split; [reflexivity|]. split; [reflexivity|].
  exact (buildCondition_literals (Str "name") OpIn
           (Some (PArray [PString "a'b"; PString "c"])) "name IN ('a\'b', 'c')"
           eq_refl eq_refl).
Defined.

Lemma scanText_join_strings (event : list string) :
  forall n rest,
    scanText false n
      (JS.join "," (List.map (fun e => escape (JString e)) event) +:+ rest)
    = scanText false (n + List.length event) rest.
Proof.
  induction event as [|e event IH]; intros n rest.
  - simpl. now rewrite Nat.add_0_r.
  - destruct event as [|e' event].
    + simpl List.map. unfold JS.join. simpl String.concat. simpl escape.
      rewrite scanText_escapeString. simpl. f_equal. lia.
    + change (JS.join "," (List.map (fun e => escape (JString e)) (e :: e' :: event)))
        with (escapeString e +:+ ","
              +:+ JS.join "," (List.map (fun e => escape (JString e)) (e' :: event))).
      rewrite !append_assoc, scanText_escapeString.
      rewrite (scanText_quoteFree ",") by reflexivity.
      rewrite IH. simpl. f_equal. lia.
Qed.

(** The event-name filter of the cohort statement holds one complete
    literal for each event name, whatever the names contain; a single name
    gives an equality and any other number of names an [IN] list. *)
Theorem whereEventNameIs_literals (event : list string) :
  literals (Chart.whereEventNameIs event) = Some (List.length event)
  /\ (forall e, Chart.whereEventNameIs [e] = "name = " +:+ escapeString e)
  /\ Chart.whereEventNameIs [] = "name IN ()".
Proof.
  split; [|split; reflexivity].
  unfold literals, Chart.whereEventNameIs.
  destruct event as [|e [|e' event]].
  - reflexivity.
  - rewrite (scanText_quoteFree "name = ") by reflexivity.
    simpl escape. rewrite <- (append_empty_r (escapeString e)), scanText_escapeString.
    reflexivity.
  - rewrite (scanText_quoteFree "name IN (") by reflexivity.
    rewrite scanText_join_strings. reflexivity.
Qed.

End ConditionLiterals.

(** ** When a condition is refused *)

Lemma not_Misused_comparison op value : comparison op = true -> ~ Misused op value.
Proof. intros Hc Hm. destruct Hm; discriminate Hc. Qed.

Lemma not_Misused_nullTest op value : op = OpIsNull \/ op = OpIsNotNull -> ~ Misused op value.
Proof. intros [->| ->] Hm; inversion Hm. Qed.

Lemma not_Misused_array op values :
  op = OpIn \/ op = OpNotIn -> ~ Misused op (Some (PArray values)).
Proof. intros [->| ->] Hm; inversion Hm; discriminate. Qed.

Lemma not_Misused_between v0 v1 : ~ Misused OpBetween (Some (PArray [v0; v1])).
Proof. intros Hm. inversion Hm as [value Hlen| |]. now apply Hlen. Qed.

Lemma escapeValue_outcome (v : SqlParam) :
  (invalid v = false /\ exists text, escapeValue v = Normal text)
  \/ (invalid v = true /\ escapeValue v = Throw rangeError).
Proof.
  pose proof (escapeValue_throws v) as H.
  destruct (escapeValue v) as [text|e].
  - left. split; [exact H | now exists text].
  - right. destruct H as [Hv ->]. split; [exact Hv | reflexivity].
Qed.

(** What [buildCondition] does, by the shape of its arguments. *)
Lemma buildCondition_outcome column op value :
  match buildCondition column op value with
  | Normal _ => ~ Misused op value /\ escapesInvalid op value = false
  | Throw e =>
      (Misused op value /\ InvalidOperatorUsage e)
      \/ (~ Misused op value /\ escapesInvalid op value = true /\ e = rangeError)
  end.
Proof.
  assert (Hplain :
            forall v : option SqlParam,
              (match v with Some v => invalid v | None => false end = false
               /\ exists text, escapeArgument v = Normal text)
              \/ (match v with Some v => invalid v | None => false end = true
                  /\ escapeArgument v = Throw rangeError)).
  { intros [v|]; [apply escapeValue_outcome|]. left. split; [reflexivity | now eexists]. }
  destruct op; unfold buildCondition; cbv zeta.
  1-6, 9-10:
    (destruct (Hplain value) as [[Hv [text ->]]|[Hv ->]]; simpl andThen;
     [ split; [now apply not_Misused_comparison | exact Hv]
     | right; split; [now apply not_Misused_comparison | split; [exact Hv | reflexivity]] ]).
  - destruct value as [[ | | | | | values]|];
      try (left; split; [now constructor | constructor]).
    destruct (escapeValue_outcome (PArray values)) as [[Hv [text ->]]|[Hv ->]]; simpl andThen.
    + split; [apply not_Misused_array; now left | exact Hv].
    + right. split; [apply not_Misused_array; now left | split; [exact Hv | reflexivity]].
  - destruct value as [[ | | | | | values]|];
      try (left; split; [now constructor | constructor]).
    destruct (escapeValue_outcome (PArray values)) as [[Hv [text ->]]|[Hv ->]]; simpl andThen.
    + split; [apply not_Misused_array; now right | exact Hv].
    + right. split; [apply not_Misused_array; now right | split; [exact Hv | reflexivity]].
  - split; [apply not_Misused_nullTest; now left | reflexivity].
  - split; [apply not_Misused_nullTest; now right | reflexivity].
  - destruct value as [[ | | | | | values]|];
      try (left; split; [constructor; discriminate | constructor]).
    destruct values as [|v0 [|v1 [|v2 values]]];
      try (left; split; [constructor; discriminate | constructor]).
    change (match andThen (escapeValue v0) (fun low =>
                  andThen (escapeValue v1) (fun high =>
                  Normal (render column +:+ " BETWEEN " +:+ low +:+ " AND " +:+ high)))
            with
            | Normal _ =>
                ~ Misused OpBetween (Some (PArray [v0; v1]))
                /\ (invalid v0 || (invalid v1 || false)) = false
            | Throw e =>
                (Misused OpBetween (Some (PArray [v0; v1])) /\ InvalidOperatorUsage e)
                \/ (~ Misused OpBetween (Some (PArray [v0; v1]))
                    /\ (invalid v0 || (invalid v1 || false)) = true /\ e = rangeError)
            end).
    destruct (escapeValue_outcome v0) as [[H0 [low ->]]|[H0 ->]]; simpl andThen.
    + destruct (escapeValue_outcome v1) as [[H1 [high ->]]|[H1 ->]]; simpl andThen.
      * split; [apply not_Misused_between | now rewrite H0, H1].
      * right. split; [apply not_Misused_between|]. now rewrite H0, H1.
    + right. split; [apply not_Misused_between|]. now rewrite H0.
Qed.

(** [buildCondition] throws exactly when the operator is misused or the
    value it escapes holds an Invalid Date: the error of the misuse in the
    first case, that of [toISOString] in the second; every other
    combination of operator and value gives a fragment. The two null tests
    ignore their value, and a comparison whose value was left out is not
    refused: it compares with [NULL]. *)
Theorem buildCondition_throws_iff column op value :
  ((exists e, buildCondition column op value = Throw e)
   <-> Misused op value \/ escapesInvalid op value = true)
  /\ (forall e,
        buildCondition column op value = Throw e ->
        (Misused op value /\ InvalidOperatorUsage e)
        \/ (~ Misused op value /\ e = rangeError))
  /\ buildCondition column OpIsNull value = Normal (render column +:+ " IS NULL")
  /\ buildCondition column OpIsNotNull value = Normal (render column +:+ " IS NOT NULL")
  /\ (comparison op = true ->
      buildCondition column op None
      = Normal (render column +:+ " " +:+ operatorText op +:+ " NULL")).
Proof.
  pose proof (buildCondition_outcome column op value) as H.
  split; [|split; [|split; [reflexivity|split; [reflexivity|]]]].
  - split.
    + intros [e He]. rewrite He in H. destruct H as [[Hm _]|(_ & Hv & _)]; auto.
    + intros Hcause. destruct (buildCondition column op value) as [text|e]; [|now exists e].
      destruct H as [Hm Hv]. destruct Hcause as [Hm'|Hv']; [contradiction | congruence].
  - intros e He. rewrite He in H. destruct H as [H|(Hm & _ & ->)]; [now left | now right].
  - destruct op; try discriminate; intros _; reflexivity.
Qed.

Example buildCondition_invalid_date :
  buildCondition (Str "d") OpEq (Some (PDate JS.InvalidDate)) = Throw rangeError
  /\ buildCondition (Str "d") OpBetween
       (Some (PArray [PDate (JS.ValidDate (JS.mkTimeValue 2024 1 2 3 4 5 0));
                      PDate JS.InvalidDate]))
     = Throw rangeError
  /\ buildCondition (Str "d") OpIsNull (Some (PDate JS.InvalidDate)) = Normal "d IS NULL".
Proof. repeat split. Qed.

(** ** Settings *)


Lemma getKey_None k t : getKey k t = None <-> ~ In k (List.map fst t).
Proof.
  induction t as [|[k' v'] t IH]; simpl.
  - tauto.
  - destruct (String.eqb_spec k' k) as [->|Hk].
    + split; [discriminate | intros H; exfalso; apply H; now left].
    + rewrite IH. tauto.
Qed.

(** A key already there keeps its place, a new key goes last. *)
Lemma keys_assignKey k v t :
  List.map fst (assignKey k v t)
  = match getKey k t with
    | Some _ => List.map fst t
    | None => List.map fst t ++ [k]
    end.
Proof.
  induction t as [|[k' v'] t IH]; simpl; [reflexivity|].
  destruct (String.eqb_spec k' k) as [->|Hk]; simpl; [reflexivity|].
  rewrite IH. now destruct (getKey k t).
Qed.

Lemma NoDup_assignKey k v t :
  List.NoDup (List.map fst t) -> List.NoDup (List.map fst (assignKey k v t)).
Proof.
  intros Hnd. rewrite keys_assignKey.
  destruct (getKey k t) eqn:E; [exact Hnd|].
  apply getKey_None in E.
  apply NoDup_ListNoDup, NoDup_app. apply NoDup_ListNoDup in Hnd.
  split; [exact Hnd|]. split.
  - intros x Hx [->|[]]%list_elem_of_In. apply E. now apply list_elem_of_In.
  - apply NoDup_singleton.
Qed.



Lemma NoDup_assign s :
  forall t, List.NoDup (List.map fst t) -> List.NoDup (List.map fst (assign t s)).
Proof.
  unfold assign. induction s as [|[k0 v0] s IH]; intros t Hnd; simpl; [exact Hnd|].
  apply IH. now apply NoDup_assignKey.
Qed.


(** A second call overrides one key and keeps the other. *)
Example settings_override :
  fst ((settings [("max_threads", "4"); ("optimize", "1")];;
        settings [("max_threads", "8")];;
        toSQL) (fresh idleClient))
  = Normal "SELECT * SETTINGS max_threads = 8, optimize = 1".
Proof. reflexivity. Qed.

(** ** What every builder keeps *)

Lemma perform_wellFormed (c : Call) (w : World) :
  wellFormed (this w) -> wellFormed (this (snd (perform c w))).
Proof.
  destruct w as [q net]. destruct q as [s f wh g h o l off fin st ct j sk cl].
  unfold wellFormed. simpl. intros (Hs & Hl & Hf & Hj).
  assert (Hjoin : forall type table cond final,
             (type = CROSS -> cond = Str "") ->
             Forall (fun j => join_type j = CROSS -> join_condition j = Str "")
                    (j ++ [mkJoin type table cond final])).
  { intros type table cond final Hc. apply Forall_app. split; [exact Hj|].
    constructor; [exact Hc | constructor]. }
  destruct c; unfold perform, select, where_, andWhere, orWhere, having, andHaving,
    orHaving, orderBy, limit, execute, toSQL, bind, lift, getThis; simpl;
    repeat match goal with
      | |- context [buildCondition ?a ?b ?c] => destruct (buildCondition a b c); simpl
      | |- context [if sk then _ else _] => destruct sk; simpl
      | |- context [query ?a ?b] => destruct (query a b); simpl
      | |- context [match ?x with Some _ => _ | None => _ end] => destruct x; simpl
      end;
    try (repeat split; solve [assumption | discriminate | intros; discriminate
                              | apply Hjoin; intros; discriminate
                              | apply Hjoin; reflexivity]).
  all: repeat split; try assumption; try (intros; discriminate).
  all: try (apply NoDup_ListNoDup, NoDup_assign, NoDup_ListNoDup; assumption).
Qed.

Lemma runCalls_wellFormed (calls : list Call) :
  forall w, wellFormed (this w) -> wellFormed (this (runCalls calls w)).
Proof.
  unfold runCalls. induction calls as [|c calls IH]; intros w Hw; simpl; [exact Hw|].
  apply IH. now apply perform_wellFormed.
Qed.

Lemma fresh_wellFormed (c : ClickHouseClient) : wellFormed (this (fresh c)).
Proof.
  unfold wellFormed. simpl. repeat split; try reflexivity; constructor.
Qed.

Lemma parts_limit_offset (q : Query) (n o : Z) :
  _limit q = Some n -> _offset q = Some o ->
  exists before after,
    buildQuery_parts q
    = before ++ ["LIMIT " +:+ JS.numberToString n; "OFFSET " +:+ JS.numberToString o] ++ after.
Proof.
  destruct q as [s f wh g h ob l off fin st ct j sk cl]. simpl _limit. simpl _offset.
  intros -> ->. simpl. rewrite !app_assoc. do 2 eexists. reflexivity.
Qed.

Lemma parts_from_joins (q : Query) (table : string) :
  _from q = Some table -> table <> "" ->
  exists before after,
    buildQuery_parts q
    = before
      ++ (("FROM " +:+ table +:+ (if _final q then " FINAL" else ""))
          :: List.map joinText (_joins q))
      ++ after.
Proof.
  destruct q as [s f wh g h ob l off fin st ct j sk cl]. simpl _from.
  intros -> Hne. simpl.
  destruct (String.eqb_spec table "") as [->|_]; [contradiction|].
  simpl negb. cbv iota.
  exists ((if Nat.ltb 0 (List.length ct)
           then ["WITH " +:+ JS.join ", "
                   (List.map (fun cte =>
                      cte_name cte +:+ " AS ("
                      +:+ match cte_query cte with
                          | inr s => s
                          | inl nested => JS.join " " (buildQuery_parts nested)
                          end +:+ ")") ct)]
           else [])
          ++ (if Nat.ltb 0 (List.length s)
              then ["SELECT"; JS.join ", " (List.map render s)]
              else ["SELECT *"])).
  eexists. rewrite <- !app_assoc. reflexivity.
Qed.

(** However a builder is used, from its creation on and through any
    sequence of calls, failed ones included: its settings never hold a key
    twice; an offset is stored only together with a limit, so that the
    offset given to [limit] is always rendered, as [OFFSET] right behind
    [LIMIT]; and FINAL is only set together with a table. *)
Theorem builder_keeps_wellFormed (client : ClickHouseClient) (calls : list Call) :
  let q := this (runCalls calls (fresh client)) in
  NoDup (List.map fst (_settings q))
  /\ (_limit q = None -> _offset q = None)
  /\ (_from q = None -> _final q = false)
  /\ (forall o,
        _offset q = Some o ->
        exists n before after,
          _limit q = Some n
          /\ buildQuery_parts q
             = before
               ++ ["LIMIT " +:+ JS.numberToString n; "OFFSET " +:+ JS.numberToString o]
               ++ after).
Proof.
  cbv zeta.
  destruct (runCalls_wellFormed calls (fresh client) (fresh_wellFormed client))
    as (Hs & Hl & Hf & _).
  split; [exact Hs|]. split; [exact Hl|]. split; [exact Hf|].
  intros o Ho.
  destruct (_limit (this (runCalls calls (fresh client)))) as [n|] eqn:En.
  - destruct (parts_limit_offset _ n o En Ho) as (before & after & Hparts).
    exists n, before, after. split; [reflexivity | exact Hparts].
  - rewrite (Hl eq_refl) in Ho. discriminate Ho.
Qed.

(** However a builder is used, a cross join never carries a condition:
    behind a table its text is [CROSS JOIN t], with FINAL when asked for,
    and never an [ON]. The joins are rendered right behind [FROM], in call
    order. *)
Theorem crossJoin_never_on (client : ClickHouseClient) (calls : list Call) :
  let q := this (runCalls calls (fresh client)) in
  Forall (fun j =>
            join_type j = CROSS ->
            joinText j
            = "CROSS JOIN " +:+ join_table j +:+ (if join_final j then " FINAL" else ""))
         (_joins q)
  /\ (forall table,
        _from q = Some table -> table <> "" ->
        exists before after,
          buildQuery_parts q
          = before
            ++ (("FROM " +:+ table +:+ (if _final q then " FINAL" else ""))
                :: List.map joinText (_joins q))
            ++ after).
Proof.
  cbv zeta.
  destruct (runCalls_wellFormed calls (fresh client) (fresh_wellFormed client))
    as (_ & _ & _ & Hj).
  split; [|intros table; apply parts_from_joins].
  eapply Forall_impl; [exact Hj|].
  intros [type table cond final] Hc Htype. simpl in *. subst type.
  rewrite (Hc eq_refl). unfold joinText. simpl.
  now rewrite append_empty_r.
Qed.

(** A cross join between two tables. *)
Example crossJoin_rendered :
  fst ((from "a" false;; crossJoin "b" true;; join "c" (Str "a.id = c.id") false;; toSQL)
         (fresh idleClient))
  = Normal "SELECT * FROM a CROSS JOIN b FINAL INNER JOIN c ON a.id = c.id".
Proof. reflexivity. Qed.

(** Without a table the joins are not rendered: a builder whose table is
    missing or empty gives the same statement whatever its joins. *)
Theorem joins_need_from (q : Query) (joins : list Join) :
  _from q = None \/ _from q = Some "" ->
  buildQuery (set_joins joins q) = buildQuery q.
Proof.
  destruct q as [s f wh g h ob l off fin st ct j sk cl]. simpl.
  intros [-> | ->]; reflexivity.
Qed.

Lemma joins_need_from_witness :
  (_from (createQuery idleClient) = None \/ _from (createQuery idleClient) = Some "")
  /\ buildQuery (set_joins [mkJoin INNER "t" (Str "a = b") false] (createQuery idleClient))
     = buildQuery (createQuery idleClient).
Proof.
  split; [left; reflexivity|].
  exact (joins_need_from (createQuery idleClient) [mkJoin INNER "t" (Str "a = b") false]
           (or_introl eq_refl)).
Defined.

(** ** Common table expressions *)

Lemma join_cons2 (sep x y : string) (l : list string) :
  JS.join sep (x :: y :: l) = x +:+ sep +:+ JS.join sep (y :: l).
Proof. reflexivity. Qed.

Lemma parts_without_ctes (q : Query) :
  _ctes q = [] -> exists p ps, buildQuery_parts q = p :: ps.
Proof.
  destruct q as [s f wh g h ob l off fin st ct j sk cl]. simpl _ctes. intros ->.
  simpl. destruct s; simpl; eauto.
Qed.

Lemma parts_first_cte (q : Query) (cte : CTE Query) :
  _ctes q = [] ->
  buildQuery_parts (push_cte cte q)
  = ("WITH " +:+ cte_name cte +:+ " AS ("
     +:+ match cte_query cte with
         | inr s => s
         | inl nested => buildQuery nested
         end +:+ ")")
    :: buildQuery_parts q.
Proof.
  destruct q as [s f wh g h ob l off fin st ct j sk cl]. simpl _ctes. intros ->.
  reflexivity.
Qed.

(** The first CTE of a builder is rendered in front of its statement: a
    nested builder as its own statement between parentheses, raw SQL as it
    is. *)
Theorem with_embeds_body (q : Query) (name : string) (body : Query + string) :
  _ctes q = [] ->
  buildQuery (push_cte (mkCTE name body) q)
  = "WITH " +:+ name +:+ " AS ("
    +:+ match body with
        | inl nested => buildQuery nested
        | inr raw => raw
        end
    +:+ ") " +:+ buildQuery q.
Proof.
  intros Hct.
  destruct (parts_without_ctes q Hct) as (p & ps & Hparts).
  assert (Hq : buildQuery q = JS.join " " (p :: ps))
    by (unfold buildQuery; now rewrite Hparts).
  rewrite Hq. unfold buildQuery at 1.
  rewrite (parts_first_cte q _ Hct), Hparts, join_cons2.
  simpl cte_name. simpl cte_query.
  rewrite !append_assoc. destruct body; reflexivity.
Qed.

Lemma with_embeds_body_witness :
  _ctes (createQuery idleClient) = []
  /\ buildQuery (push_cte (mkCTE "recent" (inl (set_from (Some "events") (createQuery idleClient))))
                          (createQuery idleClient))
     = "WITH " +:+ "recent" +:+ " AS ("
       +:+ buildQuery (set_from (Some "events") (createQuery idleClient))
       +:+ ") " +:+ buildQuery (createQuery idleClient).
Proof.
  split; [reflexivity|].
  exact (with_embeds_body (createQuery idleClient) "recent"
           (inl (set_from (Some "events") (createQuery idleClient))) eq_refl).
Defined.

(** A nested builder as a CTE. *)
Example with_nested_rendered :
  fst ((with_ "recent" (inl (set_from (Some "events") (createQuery idleClient)));;
        from "recent" false;; toSQL) (fresh idleClient))
  = Normal "WITH recent AS (SELECT * FROM events) SELECT * FROM recent".
Proof. reflexivity. Qed.

(** ** The HAVING clause *)

Lemma having_text (h : HavingCondition) (hs : list HavingCondition) :
  JS.join " "
    (imap (fun i h =>
             if Nat.eqb i 0 then having_condition h
             else joinerText (having_operator h) +:+ " " +:+ having_condition h)
          (h :: hs))
  = having_condition h +:+ String.concat "" (List.map havingJoined hs).
Proof.
  rewrite imap_cons.
  rewrite (imap_tail _ (fun h => joinerText (having_operator h) +:+ " " +:+ having_condition h))
    by reflexivity.
  rewrite join_cons, List.map_map. reflexivity.
Qed.

(** The HAVING conditions are rendered in call order behind the word
    HAVING: the first without its joiner, each later one behind its own. *)
Theorem having_rendering (q : Query) (h : HavingCondition) (hs : list HavingCondition) :
  _having q = h :: hs ->
  exists before after,
    buildQuery_parts q
    = before
      ++ ["HAVING"; having_condition h +:+ String.concat "" (List.map havingJoined hs)]
      ++ after.
Proof.
  rewrite <- having_text.
  destruct q as [s f wh g hv ob l off fin st ct j sk cl]. simpl _having.
  intros ->.
  simpl buildQuery_parts. rewrite !app_assoc. do 2 eexists. reflexivity.
Qed.

Lemma having_rendering_witness :
  let q := this (snd ((having (Str "n") OpGt (PNumber 1);;
                       orHaving (Str "m") OpLt (PNumber 2)) (fresh idleClient))) in
  _having q = [mkHaving "n > 1" AND; mkHaving "m < 2" OR]
  /\ exists before after,
       buildQuery_parts q
       = before
         ++ ["HAVING";
             having_condition (mkHaving "n > 1" AND)
             +:+ String.concat "" (List.map havingJoined [mkHaving "m < 2" OR])]
         ++ after.
Proof.
  split; [reflexivity|].
  exact (having_rendering
           (this (snd ((having (Str "n") OpGt (PNumber 1);;
                        orHaving (Str "m") OpLt (PNumber 2)) (fresh idleClient))))
           (mkHaving "n > 1" AND) [mkHaving "m < 2" OR] eq_refl).
Defined.

(** A grouped statement with two HAVING conditions. *)
Example having_rendered :
  fst ((from "t" false;; groupBy [Str "g"];;
        having (Str "n") OpGt (PNumber 1);; orHaving (Str "m") OpLt (PNumber 2);;
        toSQL) (fresh idleClient))
  = Normal "SELECT * FROM t GROUP BY g HAVING n > 1 OR m < 2".
Proof. reflexivity. Qed.

(** ** Sequences of calls *)

Lemma grown_refl {A} (l : list A) : grown l l.
Proof. exists []. now rewrite app_nil_r. Qed.

Lemma grown_snoc {A} (l : list A) (x : A) : grown l (l ++ [x]).
Proof. now exists [x]. Qed.

Lemma grown_trans {A} (a b c : list A) : grown a b -> grown b c -> grown a c.
Proof. intros [x ->] [y ->]. exists (x ++ y). now rewrite app_assoc. Qed.

Lemma perform_onlyGrown (c : Call) (w : World) :
  onlyGrown (this w) (this (snd (perform c w))).
Proof.
  destruct w as [q net]. destruct q as [s f wh g h o l off fin st ct j sk cl].
  unfold onlyGrown.
  destruct c; unfold perform, select, where_, andWhere, orWhere, having, andHaving,
    orHaving, orderBy, limit, execute, toSQL, bind, lift, getThis; simpl;
    repeat match goal with
      | |- context [buildCondition ?a ?b ?c] => destruct (buildCondition a b c); simpl
      | |- context [if sk then _ else _] => destruct sk; simpl
      | |- context [query ?a ?b] => destruct (query a b); simpl
      | |- context [match ?x with Some _ => _ | None => _ end] => destruct x; simpl
      end;
    repeat split; first [apply grown_refl | apply grown_snoc].
Qed.

(** No call takes anything back from the sequences of a builder: through
    any sequence of calls its WHERE conditions, HAVING conditions,
    orderings, joins and CTEs keep what they held, in place, and only get
    longer. A builder that is used again carries all of them along. *)
Theorem sequences_only_grow (calls : list Call) (w : World) :
  let q := this w in
  let q' := this (runCalls calls w) in
  (exists added, _where q' = _where q ++ added)
  /\ (exists added, _having q' = _having q ++ added)
  /\ (exists added, _orderBy q' = _orderBy q ++ added)
  /\ (exists added, _joins q' = _joins q ++ added)
  /\ (exists added, _ctes q' = _ctes q ++ added).
Proof.
  cbv zeta. change (onlyGrown (this w) (this (runCalls calls w))).
  revert w. unfold runCalls.
  induction calls as [|c calls IH]; intros w; simpl.
  - repeat split; apply grown_refl.
  - destruct (perform_onlyGrown c w) as (H1 & H2 & H3 & H4 & H5).
    destruct (IH (snd (perform c w))) as (I1 & I2 & I3 & I4 & I5).
    repeat split; eapply grown_trans; eassumption.
Qed.

(** Calls that fill different clauses can be made in any order: the
    builder ends in the same state, and so renders the same statement. *)
Theorem clauses_commute
    (columns groupColumns : list StringOrExpression) (table : string) (final : bool)
    (column havingColumn orderColumn : StringOrExpression) (op havingOp : Operator)
    (value : option SqlParam) (havingValue : SqlParam) (dir : Direction)
    (n : Z) (offset : option Z) (s : list (string * string))
    (condition havingCondition : string) (w : World) :
  buildCondition column op value = Normal condition ->
  buildCondition havingColumn havingOp (Some havingValue) = Normal havingCondition ->
  (select columns;; from table final;; where_ column op value;; groupBy groupColumns;;
   having havingColumn havingOp havingValue;; orderBy orderColumn dir;;
   limit n offset;; settings s) w
  = (settings s;; limit n offset;; orderBy orderColumn dir;;
     having havingColumn havingOp havingValue;; groupBy groupColumns;;
     where_ column op value;; from table final;; select columns) w.
Proof.
  intros Hc Hh. destruct w as [q net]. destruct q as [sl f wh g h o l off fin st ct j sk cl].
  unfold select, where_, having, orderBy, bind, lift, getThis. simpl.
  rewrite Hc, Hh. destruct sk, offset; simpl; rewrite ?Hc, ?Hh; reflexivity.
Qed.

Lemma clauses_commute_witness :
  buildCondition (Str "a") OpEq (Some (PNumber 1)) = Normal "a = 1"
  /\ buildCondition (Str "n") OpGt (Some (PNumber 2)) = Normal "n > 2"
  /\ (select [Str "a"];; from "t" false;; where_ (Str "a") OpEq (Some (PNumber 1));;
      groupBy [Str "a"];; having (Str "n") OpGt (PNumber 2);; orderBy (Str "a") ASC;;
      limit 10 None;; settings [("k", "v")]) (fresh idleClient)
     = (settings [("k", "v")];; limit 10 None;; orderBy (Str "a") ASC;;
        having (Str "n") OpGt (PNumber 2);; groupBy [Str "a"];;
        where_ (Str "a") OpEq (Some (PNumber 1));; from "t" false;; select [Str "a"])
         (fresh idleClient).
Proof.
  split; [reflexivity|]. split; [reflexivity|].
  exact (clauses_commute [Str "a"] [Str "a"] "t" false (Str "a") (Str "n") (Str "a")
           OpEq OpGt (Some (PNumber 1)) (PNumber 2) ASC 10 None [("k", "v")]
           "a = 1" "n > 2" (fresh idleClient) eq_refl eq_refl).
Defined.

(** The skip flag does not nest: a later [if] replaces an earlier one,
    [if(true)] is [endIf], and one [endIf] ends every [if] before it, so a
    [select] behind it is never skipped. *)
Theorem if_does_not_nest (a b : bool) (columns : list StringOrExpression) (w : World) :
  (if_ a;; if_ b) w = if_ b w
  /\ if_ true w = endIf w
  /\ (if_ a;; if_ b;; endIf) w = endIf w
  /\ _select (this (snd ((if_ a;; if_ b;; endIf;; select columns) w))) = columns.
Proof.
  destruct w as [q net]. destruct q. repeat split.
Qed.

(** ** The function library *)

Section Parentheses.

Lemma parenDepth_app (a b : string) :
  forall d,
    parenDepth d (a +:+ b)
    = match parenDepth d a with
      | Some d' => parenDepth d' b
      | None => None
      end.
Proof.
  induction a as [|c a IH]; intros d; simpl; [reflexivity|].
  destruct (Ascii.eqb c "("); [apply IH|].
  destruct (Ascii.eqb c ")"); [|apply IH].
  destruct d; [reflexivity | apply IH].
Qed.

Lemma parenDepth_shift (a : string) (k : nat) :
  forall d d', parenDepth d a = Some d' -> parenDepth (d + k) a = Some (d' + k)%nat.
Proof.
  induction a as [|c a IH]; intros d d'; simpl.
  - now intros [= ->].
  - destruct (Ascii.eqb c "("); [apply (IH (S d))|].
    destruct (Ascii.eqb c ")"); [|apply IH].
    destruct d as [|d]; [discriminate | apply (IH d)].
Qed.

Lemma balanced_at (a : string) (d : nat) : balanced a -> parenDepth d a = Some d.
Proof. intros H. exact (parenDepth_shift a d 0 0 H). Qed.

Lemma parenFree_at (a : string) (d : nat) : parenFree a = true -> parenDepth d a = Some d.
Proof.
  unfold parenFree. induction a as [|c a IH]; simpl; [reflexivity|].
  intros [[H1 H2]%andb_true_iff Ha]%andb_true_iff.
  apply negb_true_iff in H1, H2. rewrite H1, H2. auto.
Qed.

Lemma balanced_app (a b : string) : balanced a -> balanced b -> balanced (a +:+ b).
Proof. intros Ha Hb. unfold balanced. now rewrite parenDepth_app, Ha. Qed.

Lemma balanced_join (l : list string) :
  Forall balanced l -> balanced (JS.join ", " l).
Proof.
  induction 1 as [|x l Hx _ IH]; [reflexivity|].
  destruct l as [|y l]; [exact Hx|].
  rewrite join_cons2. apply balanced_app; [exact Hx|].
  apply balanced_app; [reflexivity | exact IH].
Qed.

Lemma parenFree_uint (d : Decimal.uint) : parenFree (NilEmpty.string_of_uint d) = true.
Proof. induction d; simpl; auto. Qed.

Lemma parenFree_numberToString (n : Z) : parenFree (JS.numberToString n) = true.
Proof.
  unfold JS.numberToString, NilZero.string_of_int, NilZero.string_of_uint.
  destruct (Z.to_int n) as [d|d]; destruct d; simpl; auto using parenFree_uint;
    try (change (parenFree (NilEmpty.string_of_uint d) = true); apply parenFree_uint).
Qed.

(** Reads a text piece by piece: the literal pieces by computation, the
    pieces known to be balanced by [balanced_at]. *)
Ltac count_parens :=
  unfold balanced; simpl;
  repeat first
    [ rewrite parenDepth_app
    | match goal with
      | H : balanced ?x |- context [parenDepth ?d ?x] => rewrite (balanced_at x d H)
      | |- context [parenDepth ?d (JS.numberToString ?n)] =>
          rewrite (parenFree_at (JS.numberToString n) d (parenFree_numberToString n))
      end
    | progress simpl ];
  reflexivity.

(** The function library keeps parentheses balanced: a function applied
    to arguments whose parentheses are balanced gives an expression whose
    parentheses are balanced, so calls can be nested to any depth. *)
Theorem fn_balanced :
  Forall (fun f => forall e, balanced (Fn.wrap e) -> balanced (sql (f e))) Fn.unary
  /\ balanced (sql Fn.now) /\ balanced (sql Fn.today) /\ balanced (sql Fn.yesterday)
  /\ (forall unit a b,
        balanced (Fn.wrap a) -> balanced (Fn.wrap b) ->
        balanced (sql (Fn.dateDiff unit a b)))
  /\ (forall e, balanced (Fn.wrap (default (Str "*") e)) -> balanced (sql (Fn.count e)))
  /\ (forall e alias,
        balanced (Fn.wrap e) -> balanced (default "" alias) ->
        balanced (sql (Fn.max e alias)))
  /\ (forall args,
        Forall (fun a => balanced (Fn.wrap a)) args -> balanced (sql (Fn.concat args)))
  /\ (forall e start len, balanced (Fn.wrap e) -> balanced (sql (Fn.substring e start len)))
  /\ (forall c t e,
        balanced (Fn.wrap c) -> balanced (Fn.wrap t) -> balanced (Fn.wrap e) ->
        balanced (sql (Fn.ifThen c t e))).
Proof.
  repeat match goal with |- _ /\ _ => split end; try reflexivity.
  - unfold Fn.unary. repeat constructor; intros e He; count_parens.
  - intros unit a b Ha Hb. destruct unit; count_parens.
  - intros e He. count_parens.
  - intros e [alias|] He Halias; [|count_parens].
    unfold Fn.max. destruct (String.eqb alias ""); simpl default in Halias; count_parens.
  - intros args Hargs.
    assert (Hjoin : balanced (JS.join ", " (List.map Fn.wrap args))).
    { apply balanced_join. induction Hargs; constructor; assumption. }
    count_parens.
  - intros e start [len|] He; unfold Fn.substring; [destruct (Z.eqb len 0)|];
      count_parens.
  - intros c t e Hc Ht He. count_parens.
Qed.

End Parentheses.

(** An optional argument of the function library that is falsy is left
    out: a [substring] length of zero and an empty [max] alias are dropped
    like a missing one, where a non-zero length and a non-empty alias are
    rendered; [count] without an argument counts [*]; [concat] of nothing
    has no argument. *)
Theorem fn_optional_arguments (e : StringOrExpression) (start len : Z) (alias : string) :
  Fn.substring e start (Some 0) = Fn.substring e start None
  /\ sql (Fn.substring e start None)
     = "substring(" +:+ (Fn.wrap e +:+ ", " +:+ JS.numberToString start) +:+ ")"
  /\ (len <> 0 ->
      sql (Fn.substring e start (Some len))
      = "substring("
        +:+ (Fn.wrap e +:+ ", " +:+ JS.numberToString start +:+ ", " +:+ JS.numberToString len)
        +:+ ")")
  /\ Fn.max e (Some "") = Fn.max e None
  /\ (alias <> "" ->
      sql (Fn.max e (Some alias)) = "max(" +:+ Fn.wrap e +:+ ")" +:+ " as " +:+ alias)
  /\ Fn.count None = Fn.count (Some (Str "*"))
  /\ sql (Fn.count None) = "count(" +:+ "*" +:+ ")"
  /\ sql (Fn.concat []) = "concat()".
Proof.
  repeat match goal with |- _ /\ _ => split end; try reflexivity.
  - intros Hlen. unfold Fn.substring.
    destruct (Z.eqb_spec len 0); [contradiction | reflexivity].
  - intros Halias. unfold Fn.max.
    destruct (String.eqb_spec alias ""); [contradiction | reflexivity].
Qed.

(** An expression of the function library as a column is not escaped. *)
Example fn_in_condition :
  buildCondition (Expr (Fn.dateDiff Fn.month (Str "created_at") (Expr Fn.now)))
    OpLt (Some (PNumber 6))
  = Normal "dateDiff('month', created_at, now()) < 6".
Proof. reflexivity. Qed.

(** ** Dates in the cohort statement *)

Lemma substring_replace (pat rep : ascii) (s : string) :
  forall n,
    String.substring 0 n (JS.replace pat rep s)
    = JS.replace pat rep (String.substring 0 n s).
Proof.
  induction s as [|c s IH]; intros [|n]; try reflexivity.
  - simpl. destruct (Ascii.eqb c pat); reflexivity.
  - simpl. destruct (Ascii.eqb c pat) eqn:E; simpl; rewrite ?E; [reflexivity|].
    f_equal. apply IH.
Qed.

(** [utc] and the builder agree on dates. Cutting to nineteen characters
    and replacing the first [T] can be done in either order, so the text
    [utc] gives for the ISO text of a date is the text the builder puts
    between quotes for that date; for a calendar date in a four-digit year
    it is [YYYY-MM-DD HH:MM:SS]. *)
Theorem utc_agrees_with_escapeValue (formatISO : JS.Date -> Completion string) :
  (forall s,
     Chart.utc formatISO (inl s) = Normal (JS.replace "T" " " (JS.slice 0 19 s)))
  /\ (forall t, exists text,
        Chart.utc formatISO (inl (JS.isoText t)) = Normal text
        /\ escapeValue (PDate (JS.ValidDate t)) = Normal (SqlString.escapeString text))
  /\ (forall t,
        calendar t ->
        Chart.utc formatISO (inl (JS.isoText t)) = Normal (toSecond " " t)).
Proof.
  assert (H : forall s,
             Chart.utc formatISO (inl s) = Normal (JS.replace "T" " " (JS.slice 0 19 s))).
  { intros s. unfold Chart.utc. f_equal. apply substring_replace. }
  split; [exact H|]. split.
  - intros t. eexists. split; [apply H | reflexivity].
  - intros t Ht. rewrite H, (slice_isoText t Ht). f_equal.
    destruct (toSecond_chars t Ht) as [Hdate _].
    unfold toSecond. apply replace_first.
    eapply allb_impl; [apply isDateChar_not_T | exact Hdate].
Qed.

(** ** Sorting and deduplication *)

Section Sorting.

Import Ramda Procedures.

Lemma insert_Permutation {A} (cmp : A -> A -> Z) (x : A) (l : list A) :
  Permutation (insert cmp x l) (x :: l).
Proof.
  induction l as [|y l IH]; simpl; [reflexivity|].
  destruct (0 <? cmp x y); [|reflexivity].
  rewrite IH. apply perm_swap.
Qed.

Lemma sort_Permutation {A} (cmp : A -> A -> Z) (l : list A) :
  Permutation (sort cmp l) l.
Proof.
  induction l as [|x l IH]; simpl; [reflexivity|].
  now rewrite insert_Permutation, IH.
Qed.

Lemma insert_sortedByLength (x : string) (l : list string) :
  sortedByLength l -> sortedByLength (insert byLength x l).
Proof.
  unfold sortedByLength.
  induction l as [|y l IH]; simpl; intros Hl.
  - repeat constructor.
  - apply StronglySorted_inv in Hl as [Hl Hy].
    unfold byLength at 1. destruct (Z.ltb_spec 0 (Z.of_nat (String.length x)
                                                  - Z.of_nat (String.length y))) as [Hlt|Hge].
    + constructor; [now apply IH|].
      rewrite insert_Permutation. constructor; [lia | exact Hy].
    + constructor; [now constructor|].
      constructor; [lia|].
      eapply Forall_impl; [exact Hy|]. intros z Hz. simpl in Hz. lia.
Qed.

Lemma sort_sortedByLength (l : list string) : sortedByLength (sort byLength l).
Proof.
  induction l as [|x l IH]; simpl; [constructor | now apply insert_sortedByLength].
Qed.

(** Strings of one length keep their order through an insertion. *)
Lemma filter_insert (k : nat) (x : string) (l : list string) :
  filter (fun s => String.length s = k) (insert byLength x l)
  = filter (fun s => String.length s = k) (x :: l).
Proof.
  induction l as [|y l IH]; simpl; [reflexivity|].
  unfold byLength at 1. destruct (Z.ltb_spec 0 (Z.of_nat (String.length x)
                                                - Z.of_nat (String.length y))) as [Hlt|Hge];
    [|reflexivity].
  rewrite (filter_cons _ y), IH, !filter_cons.
  destruct (decide (String.length y = k)), (decide (String.length x = k));
    try reflexivity. lia.
Qed.

Lemma filter_sort (k : nat) (l : list string) :
  filter (fun s => String.length s = k) (sort byLength l)
  = filter (fun s => String.length s = k) l.
Proof.
  induction l as [|x l IH]; simpl; [reflexivity|].
  now rewrite filter_insert, !filter_cons, IH.
Qed.

Lemma elem_of_uniqFrom (l : list string) :
  forall seen x, x ∈ uniqFrom seen l <-> x ∈ l /\ x ∉ seen.
Proof.
  induction l as [|y l IH]; intros seen x; simpl.
  - rewrite elem_of_nil. tauto.
  - destruct (decide (y ∈ seen)) as [Hin|Hout].
    + rewrite IH, elem_of_cons. split; [tauto|].
      intros [[->|Hx] Hs]; [contradiction | tauto].
    + rewrite !elem_of_cons, IH, elem_of_cons. split.
      * intros [->|[Hx Hs]]; [tauto|]. split; [tauto|]. intros Hs'. apply Hs. now right.
      * intros [[->|Hx] Hs]; [now left|].
        destruct (decide (x = y)) as [->|Hne]; [now left|].
        right. split; [exact Hx|]. intros [?|?]; contradiction.
Qed.

Lemma NoDup_uniqFrom (l : list string) : forall seen, NoDup (uniqFrom seen l).
Proof.
  induction l as [|y l IH]; intros seen; simpl; [constructor|].
  destruct (decide (y ∈ seen)); [apply IH|].
  constructor; [|apply IH].
  rewrite elem_of_uniqFrom. intros [_ Hy]. apply Hy. now left.
Qed.

Lemma sublist_uniqFrom (l : list string) : forall seen, sublist (uniqFrom seen l) l.
Proof.
  induction l as [|y l IH]; intros seen; simpl; [constructor|].
  destruct (decide (y ∈ seen)); [apply sublist_cons | apply sublist_skip]; apply IH.
Qed.

Lemma Forall_sublist {A} (P : A -> Prop) (k l : list A) :
  sublist k l -> Forall P l -> Forall P k.
Proof.
  induction 1 as [|x k l Hkl IH|x k l Hkl IH]; intros Hl.
  - constructor.
  - apply Forall_cons in Hl as [Hx Hl]. constructor; [exact Hx | now apply IH].
  - apply Forall_cons in Hl as [_ Hl]. now apply IH.
Qed.

Lemma sortedByLength_sublist (k l : list string) :
  sublist k l -> sortedByLength l -> sortedByLength k.
Proof.
  unfold sortedByLength. induction 1 as [|x k l Hkl IH|x k l Hkl IH]; intros Hl.
  - constructor.
  - apply StronglySorted_inv in Hl as [Hl Hx].
    constructor; [now apply IH|]. eapply Forall_sublist; eassumption.
  - apply StronglySorted_inv in Hl as [Hl _]. now apply IH.
Qed.

Lemma elem_of_flatten (x : string) (events : list (list string)) :
  x ∈ flatten events <-> exists row, x ∈ row /\ row ∈ events.
Proof.
  unfold flatten. induction events as [|row events IH]; simpl.
  - rewrite elem_of_nil. split; [intros [] | intros (row & _ & Hrow)].
    now apply elem_of_nil in Hrow.
  - rewrite elem_of_app, IH. split.
    + intros [Hx|(row' & Hx & Hrow)].
      * exists row. split; [exact Hx | now left].
      * exists row'. split; [exact Hx | now right].
    + intros (row' & Hx & Hrow). apply elem_of_cons in Hrow as [->|Hrow].
      * now left.
      * right. now exists row'.
Qed.

(** The names [properties] answers with: every name once; no name before a
    shorter one; the built-in names always among them, [name] when the event
    is [*], and every property key behind [properties.]; nothing else. *)
Theorem propertyNames_sorted_unique (event : option string) (items : list string) :
  let names := propertyNames event items in
  NoDup names
  /\ sortedByLength names
  /\ (forall x,
        x ∈ names
        <-> (exists item, item ∈ items /\ x = "properties." +:+ item)
            \/ (event = Some "*" /\ x = "name")
            \/ x ∈ builtinProperties).
Proof.
  cbv zeta. unfold propertyNames, uniq. split; [apply NoDup_uniqFrom|]. split.
  - eapply sortedByLength_sublist; [apply sublist_uniqFrom | apply sort_sortedByLength].
  - intros x. rewrite elem_of_uniqFrom, sort_Permutation, !elem_of_app.
    change (List.map ?f ?l) with (f <$> l). rewrite list_elem_of_fmap.
    pose proof (not_elem_of_nil x) as Hnil.
    destruct (decide (event = Some "*")) as [He|He].
    + rewrite list_elem_of_singleton. split.
      * intros [[[[y [-> Hy]]| ->]|Hb] _].
        -- left. exists y. split; [exact Hy | reflexivity].
        -- right; left. split; [exact He | reflexivity].
        -- right; right. exact Hb.
      * intros [[item [Hitem ->]]|[[_ ->]|Hb]]; (split; [|exact Hnil]).
        -- left; left. exists item. split; [reflexivity | exact Hitem].
        -- left; right. reflexivity.
        -- right. exact Hb.
    + rewrite elem_of_nil. split.
      * intros [[[[y [-> Hy]]| []]|Hb] _].
        -- left. exists y. split; [exact Hy | reflexivity].
        -- right; right. exact Hb.
      * intros [[item [Hitem ->]]|[[Hc _]|Hb]]; [| contradiction |];
          (split; [|intros []]).
        -- left; left. exists item. split; [reflexivity | exact Hitem].
        -- right. exact Hb.
Qed.

(** The values [values] answers with: every value of every row, once; no
    value before a shorter one; and values of one length in the order in
    which the rows first showed them. *)
Theorem propertyValues_sorted_unique (events : list (list string)) :
  let values := propertyValues events in
  NoDup values
  /\ sortedByLength values
  /\ (forall x, x ∈ values <-> exists row, x ∈ row /\ row ∈ events)
  /\ (forall k,
        filter (fun s => String.length s = k) values
        = filter (fun s => String.length s = k) (uniq (flatten events))).
Proof.
  cbv zeta. unfold propertyValues. split; [|split; [|split]].
  - rewrite sort_Permutation. apply NoDup_uniqFrom.
  - apply sort_sortedByLength.
  - intros x. rewrite sort_Permutation. unfold uniq. rewrite elem_of_uniqFrom.
    rewrite <- elem_of_flatten.
    split; [tauto | intros H; split; [exact H | apply not_elem_of_nil]].
  - intros k. apply filter_sort.
Qed.

(** Three rows with a repeated value. *)
Example propertyValues_example :
  propertyValues [["chrome"; "ie"]; ["safari"; "ie"]; ["opera"; "chrome"]]
  = ["ie"; "opera"; "chrome"; "safari"].
Proof. reflexivity. Qed.

End Sorting.

(** ** The statements of the property procedures *)

Section ProcedureStatements.

Import Procedures.

(** The test of the two [when] calls holds for the events that are
    neither empty nor [*]. *)
Lemma namesEvent_spec (e : string) :
  namesEvent (Some e) = if decide (e = "" \/ e = "*") then false else true.
Proof.
  unfold namesEvent.
  destruct (decide (e = "" \/ e = "*")) as [[-> | ->]|Hd]; try reflexivity.
  destruct (String.eqb_spec e ""), (String.eqb_spec e "*"); try reflexivity;
    exfalso; apply Hd; auto.
Qed.

(** The query of [events], the query of [properties] and the query of
    [values] for a property behind [properties.] each send exactly one
    statement, and that statement always filters on the project: the
    project id stands in it as an escaped literal, and so does the property
    key. The event name is filtered on, as one more escaped literal,
    exactly when an event is given that is neither empty nor [*]. *)
Theorem procedures_filter_project
    (T : TableNames) (ch : ClickHouseClient) (projectId propertyKey : string)
    (event : option string) (eventName : string) :
  event_names_mv T <> "" ->
  event_property_values_mv T <> "" ->
  network (snd (eventsQuery T projectId (fresh ch)))
  = [JS.join " "
       ["SELECT"; "distinct(name)"; "FROM " +:+ event_names_mv T; "WHERE";
        "project_id = " +:+ SqlString.escapeString projectId]]
  /\ network (snd (propertiesQuery T projectId event (fresh ch)))
     = [JS.join " "
          ["SELECT"; "distinct(property_key), max(created_at) as created_at";
           "FROM " +:+ event_property_values_mv T; "WHERE";
           "project_id = " +:+ SqlString.escapeString projectId +:+ nameFilter event;
           "GROUP BY"; "property_key"; "ORDER BY"; "created_at DESC"]]
  /\ network (snd (valuesQuery T projectId propertyKey eventName (fresh ch)))
     = [JS.join " "
          ["SELECT"; "distinct property_value, max(created_at) as created_at";
           "FROM " +:+ event_property_values_mv T; "WHERE";
           "project_id = " +:+ SqlString.escapeString projectId
           +:+ " AND property_key = " +:+ SqlString.escapeString propertyKey
           +:+ nameFilter (Some eventName);
           "GROUP BY"; "property_value"; "ORDER BY"; "created_at DESC"]].
Proof.
  destruct T as [names values]. simpl event_names_mv. simpl event_property_values_mv.
  intros Hnames Hvalues.
  destruct names as [|c1 names]; [contradiction|].
  destruct values as [|c2 values]; [contradiction|].
  split; [|split].
  - unfold eventsQuery, execute, bind, getThis. simpl.
    destruct (query ch _); unfold buildQuery; simpl; now rewrite append_empty_r.
  - unfold propertiesQuery, nameFilter.
    destruct event as [e|]; [rewrite (namesEvent_spec e)|];
      [destruct (decide (e = "" \/ e = "*"))|];
      unfold namesEvent, when, execute, bind, getThis; simpl;
      destruct (query ch _); unfold buildQuery; simpl;
      rewrite ?append_empty_r, ?append_assoc; reflexivity.
  - unfold valuesQuery, nameFilter. rewrite (namesEvent_spec eventName).
    destruct (decide (eventName = "" \/ eventName = "*"));
      unfold when, execute, bind, getThis; simpl;
      destruct (query ch _); unfold buildQuery; simpl;
      rewrite ?append_empty_r, ?append_assoc; reflexivity.
Qed.

End ProcedureStatements.

Lemma procedures_filter_project_witness :
  let T := Procedures.mkTableNames "event_names_mv" "event_property_values_mv" in
  let ch := idleClient in
  let projectId := "acme" in
  let propertyKey := "plan" in
  let event := Some "sign'up" in
  let eventName := "*" in
  Procedures.event_names_mv T <> ""
  /\ Procedures.event_property_values_mv T <> ""
  /\ network (snd (Procedures.eventsQuery T projectId (fresh ch)))
     = [JS.join " "
          ["SELECT"; "distinct(name)"; "FROM " +:+ Procedures.event_names_mv T; "WHERE";
           "project_id = " +:+ SqlString.escapeString projectId]]
  /\ network (snd (Procedures.propertiesQuery T projectId event (fresh ch)))
     = [JS.join " "
          ["SELECT"; "distinct(property_key), max(created_at) as created_at";
           "FROM " +:+ Procedures.event_property_values_mv T; "WHERE";
           "project_id = " +:+ SqlString.escapeString projectId
           +:+ Procedures.nameFilter event;
           "GROUP BY"; "property_key"; "ORDER BY"; "created_at DESC"]]
  /\ network (snd (Procedures.valuesQuery T projectId propertyKey eventName (fresh ch)))
     = [JS.join " "
          ["SELECT"; "distinct property_value, max(created_at) as created_at";
           "FROM " +:+ Procedures.event_property_values_mv T; "WHERE";
           "project_id = " +:+ SqlString.escapeString projectId
           +:+ " AND property_key = " +:+ SqlString.escapeString propertyKey
           +:+ Procedures.nameFilter (Some eventName);
           "GROUP BY"; "property_value"; "ORDER BY"; "created_at DESC"]].
Proof.
  assert (H1 : "event_names_mv" <> "") by discriminate.
  assert (H2 : "event_property_values_mv" <> "") by discriminate.
  split; [exact H1|]. split; [exact H2|].
  exact (procedures_filter_project
           (Procedures.mkTableNames "event_names_mv" "event_property_values_mv")
           idleClient "acme" "plan" (Some "sign'up") "*" H1 H2).
Defined.

(** The statement of [properties] for an event with a quote in its name. *)
Example propertiesQuery_statement :
  network (snd (Procedures.propertiesQuery
                  (Procedures.mkTableNames "event_names_mv" "event_property_values_mv")
                  "acme" (Some "sign'up") (fresh idleClient)))
  = ["SELECT distinct(property_key), max(created_at) as created_at FROM event_property_values_mv WHERE project_id = 'acme' AND name = 'sign\'up' GROUP BY property_key ORDER BY created_at DESC"].
Proof. reflexivity. Qed.

(** ** More of the cohort aggregator *)

Section MoreAggregation.

Import Cohort.
#[local] Open Scope Qc_scope.

Lemma length_foldl_forEachStep rowSum (ivs : list (nat * Qc)) :
  forall entries, List.length (foldl (forEachStep rowSum) entries ivs) = List.length entries.
Proof.
  induction ivs as [|iv ivs IH]; intros entries; simpl; [reflexivity|].
  rewrite IH. unfold forEachStep. destruct (decide (snd iv = 0)); [reflexivity|].
  apply length_alter.
Qed.

Lemma length_accumulate rowSum series entries :
  List.length (accumulate rowSum series entries) = List.length entries.
Proof. apply length_foldl_forEachStep. Qed.

Lemma length_aggregate (rows : list CohortRow) :
  forall averageData,
    List.length (average_values (foldl aggregate averageData rows))
    = List.length (average_values averageData)
    /\ List.length (average_percentages (foldl aggregate averageData rows))
       = List.length (average_percentages averageData).
Proof.
  induction rows as [|r rows IH]; intros averageData; simpl; [split; reflexivity|].
  destruct (IH (aggregate averageData r)) as [-> ->]. simpl.
  now rewrite !length_accumulate.
Qed.

Lemma length_range_nat (n : Z) : List.length (JS.range 0 (n + 1)) = Z.to_nat (n + 1).
Proof. unfold JS.range. rewrite length_seqZ. f_equal. lia. Qed.

(** Every row of the result, the weighted-average row included, has one
    value and one percentage for each index from 0 to [diffInterval]. In a
    cohort row the value at an index is the row's count column of that
    index, and 0 when the row has no such column; the percentages of a
    cohort whose size is not positive are all 0. *)
Theorem cohort_rows_shape (data : list CohortData) (diffInterval : Z) :
  Forall (fun row =>
            List.length (values row) = Z.to_nat (diffInterval + 1)
            /\ List.length (percentages row) = Z.to_nat (diffInterval + 1))
         (processCohortData data diffInterval)
  /\ (forall row index,
        (0 <= index <= diffInterval)%Z ->
        values (processRow diffInterval row) !! Z.to_nat index
        = Some (default 0 (columns row !! userCountKey index)))
  /\ (forall row,
        ~ 0 < total_first_event_count row ->
        Forall (fun p => p = 0) (percentages (processRow diffInterval row))).
Proof.
  split; [|split].
  - unfold processCohortData. destruct data as [|row rows]; [constructor|].
    cbv zeta. change (Nat.eqb (List.length (row :: rows)) 0) with false. cbv iota.
    remember (List.map (processRow diffInterval) (row :: rows)) as processed eqn:Hp.
    constructor.
    + cbn [values percentages]. rewrite !length_map.
      destruct (length_aggregate processed (emptyAverageData diffInterval)) as [-> ->].
      cbn [emptyAverageData average_values average_percentages].
      rewrite !length_map. split; apply length_range_nat.
    + subst processed. apply List.Forall_forall. intros r Hr.
      apply in_map_iff in Hr as (raw & <- & _).
      simpl. rewrite !length_map. split; apply length_range_nat.
  - intros row index Hindex. simpl values.
    rewrite lookup_map, lookup_range by assumption. reflexivity.
  - intros row Hsize. simpl percentages.
    apply List.Forall_forall. intros p Hp.
    apply in_map_iff in Hp as (v & <- & _).
    destruct (decide (0 < total_first_event_count row)); [contradiction | reflexivity].
Qed.

End MoreAggregation.

(** ** What reaches the client *)

Lemma perform_network (c : Call) (w : World) :
  network (snd (perform c w))
  = network w ++ (if isExecute c then [buildQuery (this w)] else [])
  /\ client (this (snd (perform c w))) = client (this w).
Proof.
  destruct w as [q net]. destruct q as [s f wh g h o l off fin st ct j sk cl].
  destruct c; unfold perform, select, where_, andWhere, orWhere, having, andHaving,
    orHaving, orderBy, limit, execute, toSQL, bind, lift, getThis; simpl;
    repeat match goal with
      | |- context [buildCondition ?a ?b ?c] => destruct (buildCondition a b c); simpl
      | |- context [if sk then _ else _] => destruct sk; simpl
      | |- context [query ?a ?b] => destruct (query a b); simpl
      | |- context [match ?x with Some _ => _ | None => _ end] => destruct x; simpl
      end;
    rewrite ?app_nil_r; split; reflexivity.
Qed.

(** Only [execute] talks to the client. Through any sequence of calls the
    statements sent before stay as they were, one statement is added for
    each [execute] of the sequence and none for any other call, and the
    builder keeps its client. The statement an [execute] sends is the text
    [toSQL] returns on the same builder; neither of the two changes the
    builder, and [execute] hands on what the client answers, rows or
    error, after the statement was sent. *)
Theorem only_execute_sends (calls : list Call) (w : World) :
  (exists sent,
     network (runCalls calls w) = network w ++ sent
     /\ List.length sent = executions calls)
  /\ client (this (runCalls calls w)) = client (this w)
  /\ toSQL w = (Normal (buildQuery (this w)), w)
  /\ snd (execute w) = mkWorld (this w) (network w ++ [buildQuery (this w)])
  /\ (forall rows,
        query (client (this w)) (buildQuery (this w)) = inr rows ->
        fst (execute w) = Normal rows)
  /\ (forall e,
        query (client (this w)) (buildQuery (this w)) = inl e ->
        fst (execute w) = Throw e).
Proof.
  split; [|split].
  - revert w. unfold runCalls, executions.
    induction calls as [|c calls IH]; intros w; simpl.
    + exists []. now rewrite app_nil_r.
    + destruct (IH (snd (perform c w))) as (sent & -> & Hlen).
      destruct (perform_network c w) as [-> _].
      destruct (isExecute c); simpl.
      * eexists. rewrite <- app_assoc. split; [reflexivity|]. simpl. now rewrite Hlen.
      * exists sent. now rewrite app_nil_r.
  - revert w. unfold runCalls.
    induction calls as [|c calls IH]; intros w; simpl; [reflexivity|].
    rewrite IH. apply perform_network.
  - destruct w as [q net]. unfold toSQL, execute, bind, getThis, send, throw, ret. simpl.
    repeat split.
    + destruct (query (client q) (buildQuery q)); reflexivity.
    + intros rows ->. reflexivity.
    + intros e ->. reflexivity.
Qed.
